(** * The image preview gallery (src/App.tsx): model and verified properties

    The React component [App] keeps its state in hooks and changes it from
    event handlers and effects.  The model below is a shallow embedding:
    the hooks are the fields of one record, every handler or effect is a
    function on that record, and the platform (network, XML parser, date
    parser, clock, local time zone) is a set of parameters of the
    development.

    Conventions.
    - A JavaScript number that can be [NaN] is a [number]; the numbers the
      component handles (byte sizes, epoch milliseconds, differences of
      those) are integers, so the other values are [Z].
    - A string is a byte string holding UTF-8.
    - An [async] function runs to completion as one step: the model does
      not interleave two pending handlers.  The source writes the images,
      the page and [hasMore] after an [await] and cancels nothing, so what
      is said of those fields is said of a load, or of a date effect and
      the page loads after it, each run to its end before the next one
      starts; what is said of every state of [run] concerns fields that
      no pending load can disturb.
    - The tasks of one batch of [fetchMetadata] run one after the other.
      Under [p-limit] the tasks that run at the same time read the cache
      before any of them writes it; for a batch whose keys are distinct
      the result is the same.
    - The local time zone is a fixed offset from UTC (no daylight saving
      change), so that a step of 24 hours is a step of one local day, and
      the limit of 8.64e15 ms on a time value is not modelled. *)

From Stdlib Require Import ZArith Lia Bool List Ascii String.
From Stdlib Require Import DecimalString Sorting.Sorted Sorting.Permutation.
From stdpp Require Import base option list strings gmap fin_maps sorting.

Local Open Scope string_scope.
Local Open Scope list_scope.
Local Open Scope Z_scope.

(** ** JavaScript numbers *)

Inductive number : Type :=
| NaN
| Num (z : Z).

(** [a - b]. *)
Definition num_sub (a b : number) : number :=
  match a, b with
  | Num x, Num y => Num (x - y)
  | _, _ => NaN
  end.

(** [a + b]. *)
Definition num_add (a b : number) : number :=
  match a, b with
  | Num x, Num y => Num (x + y)
  | _, _ => NaN
  end.

(** [a < b], false as soon as one side is [NaN]. *)
Definition num_lt (a b : number) : bool :=
  match a, b with
  | Num x, Num y => x <? y
  | _, _ => false
  end.

(** [a > b]. *)
Definition num_gt (a b : number) : bool := num_lt b a.

(** [a >= b], false as soon as one side is [NaN]. *)
Definition num_ge (a b : number) : bool :=
  match a, b with
  | Num x, Num y => y <=? x
  | _, _ => false
  end.

(** [a === b] on numbers: [NaN] differs from itself. *)
Definition num_strict_eq (a b : number) : bool :=
  match a, b with
  | Num x, Num y => x =? y
  | _, _ => false
  end.

(** ** Strings *)

Definition is_whitespace (c : ascii) : bool :=
  let n := nat_of_ascii c in
  ((9 <=? n) && (n <=? 13))%nat || (n =? 32)%nat.

Fixpoint trimStart (s : string) : string :=
  match s with
  | String c s' => if is_whitespace c then trimStart s' else s
  | EmptyString => EmptyString
  end.

Fixpoint trimEnd (s : string) : string :=
  match s with
  | EmptyString => EmptyString
  | String c s' =>
      match trimEnd s' with
      | EmptyString => if is_whitespace c then EmptyString else String c EmptyString
      | t => String c t
      end
  end.

(** [s.trim()], for the white space of ASCII. *)
Definition trim (s : string) : string := trimEnd (trimStart s).

(** [s.startsWith(p)]. *)
Definition startsWith (s p : string) : bool := String.prefix p s.

(** [s.includes(sub)]. *)
Fixpoint includes (s sub : string) : bool :=
  String.prefix sub s ||
  match s with
  | EmptyString => false
  | String _ s' => includes s' sub
  end.

(** [s.endsWith(p)]. *)
Fixpoint endsWith (s p : string) : bool :=
  String.eqb s p ||
  match s with
  | EmptyString => false
  | String _ s' => endsWith s' p
  end.

Definition lower_ascii (c : ascii) : ascii :=
  let n := nat_of_ascii c in
  if ((65 <=? n) && (n <=? 90))%nat then ascii_of_nat (n + 32) else c.

Fixpoint toLowerCase (s : string) : string :=
  match s with
  | EmptyString => EmptyString
  | String c s' => String (lower_ascii c) (toLowerCase s')
  end.

(** Decimal rendering of an integer inside a template literal. *)
Definition string_of_Z (z : Z) : string :=
  NilZero.string_of_int (Z.to_int z).

Definition is_digit (c : ascii) : bool :=
  let n := nat_of_ascii c in ((48 <=? n) && (n <=? 57))%nat.

Definition digit_value (c : ascii) : Z := Z.of_nat (nat_of_ascii c) - 48.

(** The longest prefix of decimal digits of [s], read in base ten on top
    of the accumulator [acc]; [None] when [s] starts with no digit and
    nothing was read yet. *)
Fixpoint read_digits (s : string) (acc : option Z) : option Z :=
  match s with
  | String c s' =>
      if is_digit c
      then read_digits s' (Some (10 * default 0 acc + digit_value c))
      else acc
  | EmptyString => acc
  end.

(** [parseInt(s, 10)]: leading white space skipped, an optional sign,
    then the longest run of digits; [NaN] when there is no digit. *)
Definition parseInt (s : string) : number :=
  let body (t : string) := read_digits t None in
  match trimStart s with
  | String "-" t => match body t with Some n => Num (- n) | None => NaN end
  | String "+" t => match body t with Some n => Num n | None => NaN end
  | t => match body t with Some n => Num n | None => NaN end
  end.

(** [a || b] on strings: the empty string is falsy. *)
Definition str_or (a : option string) (b : string) : string :=
  match a with
  | Some (String c s) => String c s
  | _ => b
  end.

Definition hex_digit (n : nat) : ascii :=
  ascii_of_nat (if (n <? 10)%nat then 48 + n else 55 + n).

Definition is_uri_unreserved (c : ascii) : bool :=
  let n := nat_of_ascii c in
  is_digit c || ((65 <=? n) && (n <=? 90))%nat || ((97 <=? n) && (n <=? 122))%nat
  || existsb (Ascii.eqb c) ["-"; "_"; "."; "!"; "~"; "*"; "'"; "("; ")"]%char.

(** [encodeURIComponent(s)] on the UTF-8 bytes of [s]. *)
Fixpoint encodeURIComponent (s : string) : string :=
  match s with
  | EmptyString => EmptyString
  | String c s' =>
      if is_uri_unreserved c
      then String c (encodeURIComponent s')
      else
        let n := nat_of_ascii c in
        String "%" (String (hex_digit (n / 16)) (String (hex_digit (n mod 16))
          (encodeURIComponent s')))
  end.

(** ** Dates *)

Definition msPerDay : Z := 24 * 60 * 60 * 1000.

(** A [Date] object is its time value: epoch milliseconds, or [NaN] for
    an invalid date. *)
Record Date : Type := mkDate { getTime : number }.

(** The proleptic Gregorian calendar in eras of 400 years (146097 days)
    that start on a 1 March: the year of the era of a day of the era, the
    day of that year counted from 1 March, and the month of a day of the
    year counted from March. *)
Definition yearOfEra (doe : Z) : Z :=
  (doe - doe / 1460 + doe / 36524 - doe / 146096) / 365.

Definition dayOfYear (doe : Z) : Z :=
  doe - (365 * yearOfEra doe + yearOfEra doe / 4 - yearOfEra doe / 100).

Definition monthIndex (doy : Z) : Z := (5 * doy + 2) / 153.

(** Year, month (from 0) and day of the month of a day number counted
    from 1970-01-01: ECMAScript's YearFromTime, MonthFromTime and
    DateFromTime. *)
Definition civil_from_days (days : Z) : Z * Z * Z :=
  let z := days + 719468 in
  let era := z / 146097 in
  let doe := z - era * 146097 in
  let yoe := yearOfEra doe in
  let doy := dayOfYear doe in
  let mp := monthIndex doy in
  let d := doy - (153 * mp + 2) / 5 + 1 in
  let m := if mp <? 10 then mp + 3 else mp - 9 in
  let y := yoe + era * 400 + (if m <=? 2 then 1 else 0) in
  (y, m - 1, d).

(** ** Data model *)

(** [interface ObjectInfo]. *)
Module ObjectInfo.
Record t : Type := mk { key : string; lastModified : string }.
End ObjectInfo.

(** [interface Image]. *)
Module Image.
Record t : Type := mk {
  key : string;
  lastModified : string;
  size : number;
  contentType : string
}.
End Image.

(** ** The platform *)

Inductive Method : Type := GET | HEAD.

(** What the component reads of a [Response]; [headers] is
    [response.headers.get]. *)
Record Response : Type := mkResponse {
  ok : bool;
  status : Z;
  statusText : string;
  text : string;
  headers : string -> option string
}.

(** A settled [fetch] promise. *)
Inductive FetchResult : Type :=
| Resolved (response : Response)
| Rejected (message : string).

(** What the component reads of a [Contents] element: the text of its
    first [Key] and [LastModified] descendants, when there are any. *)
Record ContentsNode : Type := mkContents {
  Key : option string;
  LastModified : option string
}.

(** What the component reads of a parsed document: whether it holds a
    [parsererror] element, its [Contents] elements in document order, and
    the text of its first [NextContinuationToken] element. *)
Record Document : Type := mkDocument {
  parsererror : bool;
  Contents : list ContentsNode;
  NextContinuationToken : option string
}.

(** A [try] body ends normally or throws an [Error] with a message. *)
Inductive Completion (A : Type) : Type :=
| Normal (a : A)
| Throw (message : string).
Arguments Normal {A} a.
Arguments Throw {A} message.

Definition bindC {A B : Type} (c : Completion A) (k : A -> Completion B)
  : Completion B :=
  match c with
  | Normal a => k a
  | Throw m => Throw m
  end.

Notation "x <~ c ;; k" := (bindC c (fun x => k))
  (at level 100, c at next level, right associativity).

Fixpoint mapC {A B : Type} (f : A -> Completion B) (l : list A)
  : Completion (list B) :=
  match l with
  | [] => Normal []
  | x :: l' => y <~ f x ;; ys <~ mapC f l' ;; Normal (y :: ys)
  end.

Inductive ConsoleEntry : Type :=
| Log (message : string)
| Warn (message : string).

(** [l.slice(a, b)] for [0 <= a <= b]. *)
Definition slice {A : Type} (a b : nat) (l : list A) : list A :=
  take (b - a) (drop a l).

(** [Array.from(new Set(l))]: the first occurrence of every value, in
    order. *)
Definition Set_from (l : list Z) : list Z :=
  fold_left (fun acc x => if existsb (Z.eqb x) acc then acc else acc ++ [x]) l [].

(** [l.sort(cmp)].  The standard demands a stable sort and treats a
    comparator result of [NaN] as 0; for a consistent comparator the
    result does not depend on the algorithm.  The model is the insertion
    sort: an element moves right past [y] only when [cmp x y > 0]. *)
Fixpoint sort_insert {A : Type} (cmp : A -> A -> number) (x : A) (l : list A)
  : list A :=
  match l with
  | [] => [x]
  | y :: l' =>
      if num_gt (cmp x y) (Num 0) then y :: sort_insert cmp x l' else x :: l
  end.

Fixpoint sort {A : Type} (cmp : A -> A -> number) (l : list A) : list A :=
  match l with
  | [] => []
  | x :: l' => sort_insert cmp x (sort cmp l')
  end.

(** [l.findIndex(p)], -1 when there is none. *)
Fixpoint findIndex {A : Type} (p : A -> bool) (l : list A) : Z :=
  match l with
  | [] => -1
  | x :: l' =>
      if p x then 0
      else let i := findIndex p l' in if i <? 0 then -1 else i + 1
  end.

(** ** Constants of the component *)

Definition bucketUrl : string :=
  "https://storage.algosol.ca/social-cleaner-posts-img/".
Definition batchSize : nat := 20.
Definition minFileSize : Z := 10240.
Definition concurrentRequests : nat := 5.

(** ** The component state: one field per hook *)

Record AppState : Type := mkApp {
  objects : list ObjectInfo.t;
  images : list Image.t;
  displayedImages : list Image.t;
  selectedImage : option Image.t;
  selectedDate : option Date;
  uniqueDates : list Date;
  loading : bool;
  error : option string;
  page : nat;
  hasMore : bool;
  metadataCache : gmap string Image.t;
  (** what was written to the console, oldest first *)
  console : list ConsoleEntry;
  (** the promise of the [fetchObjects] call made at mount is pending *)
  listingPending : bool
}.

Definition setObjects (v : list ObjectInfo.t) (st : AppState) : AppState :=
  mkApp v (images st) (displayedImages st) (selectedImage st) (selectedDate st)
    (uniqueDates st) (loading st) (error st) (page st) (hasMore st)
    (metadataCache st) (console st) (listingPending st).

Definition setImages (v : list Image.t) (st : AppState) : AppState :=
  mkApp (objects st) v (displayedImages st) (selectedImage st) (selectedDate st)
    (uniqueDates st) (loading st) (error st) (page st) (hasMore st)
    (metadataCache st) (console st) (listingPending st).

Definition setDisplayedImages (v : list Image.t) (st : AppState) : AppState :=
  mkApp (objects st) (images st) v (selectedImage st) (selectedDate st)
    (uniqueDates st) (loading st) (error st) (page st) (hasMore st)
    (metadataCache st) (console st) (listingPending st).

Definition setSelectedImage (v : option Image.t) (st : AppState) : AppState :=
  mkApp (objects st) (images st) (displayedImages st) v (selectedDate st)
    (uniqueDates st) (loading st) (error st) (page st) (hasMore st)
    (metadataCache st) (console st) (listingPending st).

Definition writeSelectedDate (v : option Date) (st : AppState) : AppState :=
  mkApp (objects st) (images st) (displayedImages st) (selectedImage st) v
    (uniqueDates st) (loading st) (error st) (page st) (hasMore st)
    (metadataCache st) (console st) (listingPending st).

Definition setUniqueDates (v : list Date) (st : AppState) : AppState :=
  mkApp (objects st) (images st) (displayedImages st) (selectedImage st)
    (selectedDate st) v (loading st) (error st) (page st) (hasMore st)
    (metadataCache st) (console st) (listingPending st).

Definition setLoading (v : bool) (st : AppState) : AppState :=
  mkApp (objects st) (images st) (displayedImages st) (selectedImage st)
    (selectedDate st) (uniqueDates st) v (error st) (page st) (hasMore st)
    (metadataCache st) (console st) (listingPending st).

Definition setError (v : option string) (st : AppState) : AppState :=
  mkApp (objects st) (images st) (displayedImages st) (selectedImage st)
    (selectedDate st) (uniqueDates st) (loading st) v (page st) (hasMore st)
    (metadataCache st) (console st) (listingPending st).

Definition setPage (v : nat) (st : AppState) : AppState :=
  mkApp (objects st) (images st) (displayedImages st) (selectedImage st)
    (selectedDate st) (uniqueDates st) (loading st) (error st) v (hasMore st)
    (metadataCache st) (console st) (listingPending st).

Definition setHasMore (v : bool) (st : AppState) : AppState :=
  mkApp (objects st) (images st) (displayedImages st) (selectedImage st)
    (selectedDate st) (uniqueDates st) (loading st) (error st) (page st) v
    (metadataCache st) (console st) (listingPending st).

Definition setMetadataCache (v : gmap string Image.t) (st : AppState)
  : AppState :=
  mkApp (objects st) (images st) (displayedImages st) (selectedImage st)
    (selectedDate st) (uniqueDates st) (loading st) (error st) (page st)
    (hasMore st) v (console st) (listingPending st).

Definition writeConsole (w : list ConsoleEntry) (st : AppState) : AppState :=
  mkApp (objects st) (images st) (displayedImages st) (selectedImage st)
    (selectedDate st) (uniqueDates st) (loading st) (error st) (page st)
    (hasMore st) (metadataCache st) (console st ++ w) (listingPending st).

Definition setListingPending (v : bool) (st : AppState) : AppState :=
  mkApp (objects st) (images st) (displayedImages st) (selectedImage st)
    (selectedDate st) (uniqueDates st) (loading st) (error st) (page st)
    (hasMore st) (metadataCache st) (console st) v.

(** The state built by the [useState] and [useRef] calls; [now] is what
    [new Date()] gives at that moment. *)
Definition initialState (now : Date) : AppState :=
  mkApp [] [] [] None (Some now) [] true None 1%nat true ∅ [] true.

(** ** A test platform

    A concrete time zone, date parser, server and XML parser, on which
    the component can be run. *)

Module Demo.

(** UTC-4. *)
Definition tzOffset : Z := - 4 * 60 * 60 * 1000.

Definition days_from_civil (y m d : Z) : Z :=
  let y := if m <=? 2 then y - 1 else y in
  let era := y / 400 in
  let yoe := y - era * 400 in
  let doy := (153 * (if 2 <? m then m - 3 else m + 9) + 2) / 5 + d - 1 in
  let doe := yoe * 365 + yoe / 4 - yoe / 100 + doy in
  era * 146097 + doe - 719468.

Definition field (s : string) (start len : nat) : option Z :=
  let f := String.substring start len s in
  if forallb is_digit (list_ascii_of_string f) && (String.length f =? len)%nat
  then read_digits f None else None.

(** A date parser for the one format the object store writes,
    [YYYY-MM-DDTHH:MM:SS.sssZ]; anything else is an invalid date. *)
Definition Date_parse (s : string) : number :=
  match field s 0 4, field s 5 2, field s 8 2, field s 11 2, field s 14 2,
        field s 17 2, field s 20 3 with
  | Some y, Some m, Some d, Some hh, Some mm, Some ss, Some ms =>
      if String.eqb (String.substring 4 1 s) "-"
         && String.eqb (String.substring 7 1 s) "-"
         && String.eqb (String.substring 10 1 s) "T"
         && String.eqb (String.substring 13 1 s) ":"
         && String.eqb (String.substring 16 1 s) ":"
         && String.eqb (String.substring 19 1 s) "."
         && String.eqb (String.substring 23 2 s) "Z"
      then Num (days_from_civil y m d * msPerDay
                + ((hh * 60 + mm) * 60 + ss) * 1000 + ms)
      else NaN
  | _, _, _, _, _, _, _ => NaN
  end.

Definition header (length type : string) (name : string) : option string :=
  if String.eqb name "Content-Length" then Some length
  else if String.eqb name "Content-Type" then Some type
  else None.

(** The answer to a metadata probe is decided by the name of the
    object. *)
Definition probe (url : string) : FetchResult :=
  if includes url "offline" then Rejected "Failed to fetch"
  else if includes url "missing"
  then Resolved (mkResponse false 404 "Not Found" "" (fun _ => None))
  else if includes url "thumb"
  then Resolved (mkResponse true 200 "OK" "" (header "2048" "image/png"))
  else Resolved (mkResponse true 200 "OK" "" (header "204800" "image/jpeg")).

(** A server with the listing pages [routes], a list of URL and
    response text. *)
Definition fetch (routes : list (string * string)) (m : Method) (url : string)
  : FetchResult :=
  match m with
  | HEAD => probe url
  | GET =>
      match List.find (fun r => String.eqb r.1 url) routes with
      | Some r => Resolved (mkResponse true 200 "OK" r.2 (fun _ => None))
      | None => Resolved (mkResponse false 404 "Not Found" "" (fun _ => None))
      end
  end.

(** An XML parser that knows the documents [docs], a list of text and
    document, and reports a parser error on any other text. *)
Definition parseFromString (docs : list (string * Document)) (text : string)
  : Document :=
  match List.find (fun r => String.eqb r.1 text) docs with
  | Some r => r.2
  | None => mkDocument true [] None
  end.

Definition origin : string := "http://localhost:5173".

Definition entry (key lastModified : string) : ContentsNode :=
  mkContents (Some key) (Some lastModified).

(** [n] entries [prefix-0.ext] ... of one modification time. *)
Definition entries (prefix ext lastModified : string) (n : nat)
  : list ContentsNode :=
  map (fun i => entry (prefix +:+ "-" +:+ string_of_Z (Z.of_nat i) +:+ ext)
                  lastModified)
    (seq 0 n).

Definition firstUrl : string := bucketUrl +:+ "?list-type=2".
Definition secondUrl : string :=
  bucketUrl +:+ "?list-type=2&continuation-token=next%2F1".

Definition dayA : string := "2025-06-03T15:30:00.000Z".
Definition dayB : string := "2025-06-02T09:00:00.000Z".
Definition dayC : string := "2025-06-01T23:59:59.000Z".
Definition now : Date := mkDate (Date_parse "2025-06-03T21:15:00.000Z").

Definition toInfo (node : ContentsNode) : ObjectInfo.t :=
  ObjectInfo.mk (str_or (Key node) "") (str_or (LastModified node) "").

(** A bucket of 45 images over three days, 15 of day B listed first,
    and one text file, on two listing pages. *)
Definition galleryPage1 : list ContentsNode :=
  entries "b" ".jpg" dayB 15 ++ [entry "notes.txt" dayA]
  ++ entries "a" ".JPG" dayA 20.

Definition galleryPage2 : list ContentsNode := entries "c" ".webp" dayC 10.

Definition galleryDocs : list (string * Document) :=
  [("<ListBucketResult>1</ListBucketResult>",
    mkDocument false galleryPage1 (Some "next/1"));
   ("<ListBucketResult>2</ListBucketResult>",
    mkDocument false galleryPage2 None)].

Definition galleryRoutes : list (string * string) :=
  [(firstUrl, "<ListBucketResult>1</ListBucketResult>");
   (secondUrl, "<ListBucketResult>2</ListBucketResult>")].

(** The same bucket when the second page comes back damaged. *)
Definition brokenRoutes : list (string * string) :=
  [(firstUrl, "<ListBucketResult>1</ListBucketResult>");
   (secondUrl, "<ListBucketResult><Contents>")].

(** An endpoint that serves a browser page. *)
Definition htmlRoutes : list (string * string) :=
  [(firstUrl, "  <!DOCTYPE html><html><body>MinIO Console</body></html>")].

(** A bucket that holds objects but no image. *)
Definition textOnlyDocs : list (string * Document) :=
  [("<ListBucketResult>txt</ListBucketResult>",
    mkDocument false [entry "readme.txt" dayA] None)].

Definition textOnlyRoutes : list (string * string) :=
  [(firstUrl, "<ListBucketResult>txt</ListBucketResult>")].

(** An empty bucket. *)
Definition emptyDocs : list (string * Document) :=
  [("<ListBucketResult/>", mkDocument false [] None)].

Definition emptyRoutes : list (string * string) :=
  [(firstUrl, "<ListBucketResult/>")].

(** Ten candidates, two of which fail their probe, and the bucket that
    lists them. *)
Definition candidates : list ObjectInfo.t :=
  [ObjectInfo.mk "p0.jpg" dayA; ObjectInfo.mk "p1.jpg" dayA;
   ObjectInfo.mk "offline-2.jpg" dayA; ObjectInfo.mk "p3.jpg" dayA;
   ObjectInfo.mk "p4.jpg" dayA; ObjectInfo.mk "p5.jpg" dayB;
   ObjectInfo.mk "missing-6.png" dayB; ObjectInfo.mk "p7.jpg" dayB;
   ObjectInfo.mk "p8.jpg" dayC; ObjectInfo.mk "p9.jpg" dayC].

Definition candidatesDocs : list (string * Document) :=
  [("<ListBucketResult>10</ListBucketResult>",
    mkDocument false
      (map (fun obj => entry (ObjectInfo.key obj) (ObjectInfo.lastModified obj))
         candidates)
      None)].

Definition candidatesRoutes : list (string * string) :=
  [(firstUrl, "<ListBucketResult>10</ListBucketResult>")].

End Demo.

(** ** The component *)

Section App.

(** Local time is UTC plus [tzOffset] milliseconds. *)
Variable tzOffset : Z.
(** [new Date(s).getTime()] for a string [s]. *)
Variable Date_parse : string -> number.
(** [fetch(url, {method, ...})], settled. *)
Variable fetch : Method -> string -> FetchResult.
(** [new DOMParser().parseFromString(text, 'application/xml')]. *)
Variable parseFromString : string -> Document.
(** [window.location.origin]. *)
Variable origin : string.

(** *** Dates in local time *)

Definition localDay (t : Z) : Z := (t + tzOffset) / msPerDay.

Definition newDate (s : string) : Date := mkDate (Date_parse s).

Definition getFullYear (d : Date) : number :=
  match getTime d with
  | Num t => Num (civil_from_days (localDay t)).1.1
  | NaN => NaN
  end.

Definition getMonth (d : Date) : number :=
  match getTime d with
  | Num t => Num (civil_from_days (localDay t)).1.2
  | NaN => NaN
  end.

Definition getDate (d : Date) : number :=
  match getTime d with
  | Num t => Num (civil_from_days (localDay t)).2
  | NaN => NaN
  end.

(** [date.setHours(0, 0, 0, 0)]: the start of the local day. *)
Definition setHours0 (d : Date) : Date :=
  match getTime d with
  | Num t => mkDate (Num (t - (t + tzOffset) mod msPerDay))
  | NaN => mkDate NaN
  end.

Definition normalizeDate (date : Date) : Date := setHours0 date.

Definition areDatesEqual (date1 date2 : Date) : bool :=
  let d1 := normalizeDate date1 in
  let d2 := normalizeDate date2 in
  num_strict_eq (getFullYear d1) (getFullYear d2)
  && num_strict_eq (getMonth d1) (getMonth d2)
  && num_strict_eq (getDate d1) (getDate d2).

(** [date.toISOString()] throws on an invalid date.  The ISO string of
    a valid date spells its time value to the millisecond and
    [new Date] reads it back, so the model keeps the time value. *)
Definition toISOString (d : Date) : Completion Z :=
  match getTime d with
  | Num t => Normal t
  | NaN => Throw "Invalid time value"
  end.

(** *** fetchObjects *)

(** [/\.(jpg|jpeg|png|gif|webp)$/i.test(key)]. *)
Definition isImageKey (key : string) : bool :=
  existsb (fun ext => endsWith (toLowerCase key) ("." +:+ ext))
    ["jpg"; "jpeg"; "png"; "gif"; "webp"].

(** [s || null]. *)
Definition or_null (s : option string) : option string :=
  match s with
  | Some (String c t) => Some (String c t)
  | _ => None
  end.

Definition listingUrl (continuationToken : option string) : string :=
  match or_null continuationToken with
  | Some token =>
      bucketUrl +:+ "?list-type=2&continuation-token=" +:+ encodeURIComponent token
  | None => bucketUrl +:+ "?list-type=2"
  end.

Definition htmlMessage : string :=
  "Received HTML instead of XML. The bucket URL may be incorrect or serving the MinIO browser UI. Contact the bucket owner to confirm the S3 API endpoint (e.g., https://storage.algosol.ca/s3/social-cleaner-posts-img/).".

Definition parseMessage : string :=
  "Failed to parse XML response. Ensure the bucket returns a valid object listing.".

Definition noObjectsMessage : string := "No objects found in the bucket.".

(** One turn of the [do ... while] loop: the entries of the page and
    the next continuation token. *)
Definition listingPage (continuationToken : option string)
  : Completion (list ObjectInfo.t * option string) :=
  match fetch GET (listingUrl continuationToken) with
  | Rejected message => Throw message
  | Resolved response =>
      if negb (ok response)
      then Throw ("HTTP error: " +:+ string_of_Z (status response) +:+ " "
                  +:+ statusText response)
      else
        let text := text response in
        if startsWith (trim text) "<!DOCTYPE html>" || includes text "<html"
        then Throw htmlMessage
        else
          let xml := parseFromString text in
          if parsererror xml then Throw parseMessage
          else
            Normal
              (map (fun node =>
                      ObjectInfo.mk (str_or (Key node) "")
                                    (str_or (LastModified node) ""))
                 (Contents xml),
               or_null (NextContinuationToken xml))
  end.

(** The loop; [None] when [fuel] turns were not enough to reach a page
    without a continuation token. *)
Fixpoint listingLoop (fuel : nat) (continuationToken : option string)
  (objectList : list ObjectInfo.t) : option (Completion (list ObjectInfo.t)) :=
  match fuel with
  | O => None
  | S fuel' =>
      match listingPage continuationToken with
      | Throw message => Some (Throw message)
      | Normal (objs, next) =>
          let objectList := objectList ++ objs in
          match next with
          | Some _ => listingLoop fuel' next objectList
          | None => Some (Normal objectList)
          end
      end
  end.

(** [(a, b) => new Date(b.lastModified).getTime()
               - new Date(a.lastModified).getTime()]. *)
Definition newestFirst (a b : ObjectInfo.t) : number :=
  num_sub (getTime (newDate (ObjectInfo.lastModified b)))
          (getTime (newDate (ObjectInfo.lastModified a))).

Definition filterAndSort (objectList : list ObjectInfo.t) : list ObjectInfo.t :=
  sort newestFirst
    (List.filter (fun obj => isImageKey (ObjectInfo.key obj)) objectList).

Definition computeDates (filteredObjects : list ObjectInfo.t)
  : Completion (list Date) :=
  isoStrings <~ mapC (fun obj =>
      toISOString (normalizeDate (newDate (ObjectInfo.lastModified obj))))
    filteredObjects ;;
  Normal (sort (fun a b => num_sub (getTime b) (getTime a))
            (map (fun t => mkDate (Num t)) (Set_from isoStrings))).

(** The body of the [try] block of [fetchObjects]. *)
Definition fetchObjectsTry (fuel : nat)
  : option (Completion (list ObjectInfo.t * list Date)) :=
  match listingLoop fuel None [] with
  | None => None
  | Some c =>
      Some (objectList <~ c ;;
            if (length objectList =? 0)%nat then Throw noObjectsMessage
            else
              let filteredObjects := filterAndSort objectList in
              dates <~ computeDates filteredObjects ;;
              Normal (filteredObjects, dates))
  end.

(** The message computed in the [catch] block. *)
Definition errorMessage (message : string) : string :=
  if includes message "cors" || includes message "fetch"
  then message +:+ ". Ensure the server is configured to allow CORS for "
       +:+ origin +:+ "."
  else message.

Definition fetchObjects (fuel : nat) (st : AppState) : option AppState :=
  match fetchObjectsTry fuel with
  | None => None
  | Some (Normal (filteredObjects, dates)) =>
      Some (setLoading false
             (setUniqueDates dates
               (setObjects filteredObjects (setLoading true st))))
  | Some (Throw message) =>
      Some (setLoading false
             (setError (Some (errorMessage message)) (setLoading true st)))
  end.

(** *** fetchMetadata *)

(** The task given to [limit] for one object: the cache after it, what
    it wrote to the console, and the image or [null]. *)
Definition fetchMetadataTask (cache : gmap string Image.t) (obj : ObjectInfo.t)
  : gmap string Image.t * list ConsoleEntry * option Image.t :=
  match cache !! ObjectInfo.key obj with
  | Some cached => (cache, [], Some cached)
  | None =>
      match fetch HEAD (bucketUrl +:+ encodeURIComponent (ObjectInfo.key obj)) with
      | Resolved headResponse =>
          if negb (ok headResponse)
          then (cache,
                [Warn ("Failed to fetch metadata for " +:+ ObjectInfo.key obj)],
                None)
          else
            let size :=
              parseInt (str_or (headers headResponse "Content-Length") "0") in
            if num_lt size (Num minFileSize) then (cache, [], None)
            else
              let image :=
                Image.mk (ObjectInfo.key obj) (ObjectInfo.lastModified obj) size
                  (str_or (headers headResponse "Content-Type") "unknown") in
              (<[ObjectInfo.key obj := image]> cache, [], Some image)
      | Rejected err =>
          (cache,
           [Warn ("Error fetching metadata for " +:+ ObjectInfo.key obj +:+ ":")],
           None)
      end
  end.

(** [limit] lets at most [concurrentRequests] tasks run at a time; the
    model runs them one after the other in the order of
    [objectsToFetch].  [Promise.all] keeps that order and the final
    [filter] drops the [null]s. *)
Fixpoint fetchMetadata (objectsToFetch : list ObjectInfo.t)
  (cache : gmap string Image.t)
  : gmap string Image.t * list ConsoleEntry * list Image.t :=
  match objectsToFetch with
  | [] => (cache, [], [])
  | obj :: rest =>
      let '(cache1, w1, r) := fetchMetadataTask cache obj in
      let '(cache2, w2, imgs) := fetchMetadata rest cache1 in
      (cache2, w1 ++ w2, option_list r ++ imgs)
  end.

(** *** The date filter effect and the pager *)

(** [selectedDate ? objects.filter(...) : objects]. *)
Definition objectsToDisplay (selectedDate : option Date)
  (objects : list ObjectInfo.t) : list ObjectInfo.t :=
  match selectedDate with
  | Some d =>
      List.filter (fun obj =>
          areDatesEqual (newDate (ObjectInfo.lastModified obj)) (normalizeDate d))
        objects
  | None => objects
  end.

(** [fetchMetadata] on the cache of the component. *)
Definition runFetchMetadata (objectsToFetch : list ObjectInfo.t) (st : AppState)
  : AppState * list Image.t :=
  let '(cache, w, newImages) := fetchMetadata objectsToFetch (metadataCache st) in
  (writeConsole w (setMetadataCache cache st), newImages).

(** [fetchInitialImages]; its [catch] is never reached, [fetchMetadata]
    does not reject. *)
Definition fetchInitialImages (st : AppState) : AppState :=
  let st := setLoading true st in
  let objectsToDisplay := objectsToDisplay (selectedDate st) (objects st) in
  let initialObjects := slice 0 batchSize objectsToDisplay in
  let '(st, newImages) := runFetchMetadata initialObjects st in
  let st := setImages newImages st in
  let st := setDisplayedImages newImages st in
  let st := setHasMore (batchSize <? length objectsToDisplay)%nat st in
  setLoading false st.

(** What the effect does before it starts [fetchInitialImages]. *)
Definition dateEffectReset (st : AppState) : AppState :=
  setMetadataCache ∅ (setPage 1%nat (setImages [] (setDisplayedImages [] st))).

(** The effect on [[selectedDate, objects, batchSize, fetchMetadata]]. *)
Definition dateEffect (st : AppState) : AppState :=
  let st := dateEffectReset st in
  if (0 <? length (objects st))%nat then fetchInitialImages st else st.

Definition loadMoreImages (st : AppState) : AppState :=
  if negb (hasMore st) || loading st then st
  else
    let st := setLoading true st in
    let nextPage := (page st + 1)%nat in
    let startIndex := (page st * batchSize)%nat in
    let endIndex := (nextPage * batchSize)%nat in
    let objectsToDisplay := objectsToDisplay (selectedDate st) (objects st) in
    let nextObjects := slice startIndex endIndex objectsToDisplay in
    let '(st, newImages) := runFetchMetadata nextObjects st in
    let st := setImages (images st ++ newImages) st in
    let st := setDisplayedImages (displayedImages st ++ newImages) st in
    let st := setPage nextPage st in
    let st := setHasMore (endIndex <? length objectsToDisplay)%nat st in
    setLoading false st.

(** *** The viewer *)

Definition currentImages (st : AppState) : list Image.t :=
  match selectedDate st with
  | Some d =>
      List.filter (fun image =>
          areDatesEqual (newDate (Image.lastModified image)) (normalizeDate d))
        (images st)
  | None => images st
  end.

Definition handleImageClick (image : Image.t) (st : AppState) : AppState :=
  setSelectedImage (Some image) (writeConsole [Log "Image clicked:"] st).

Definition handleCloseModal (st : AppState) : AppState :=
  setSelectedImage None (writeConsole [Log "Closing modal"] st).

Definition handlePreviousImage (st : AppState) : AppState :=
  match selectedImage st with
  | None => st
  | Some sel =>
      let currentIndex :=
        findIndex (fun image => String.eqb (Image.key image) (Image.key sel))
          (currentImages st) in
      if 0 <? currentIndex
      then match currentImages st !! Z.to_nat (currentIndex - 1) with
           | Some image => setSelectedImage (Some image) st
           | None => st
           end
      else st
  end.

Definition handleNextImage (st : AppState) : AppState :=
  match selectedImage st with
  | None => st
  | Some sel =>
      let currentIndex :=
        findIndex (fun image => String.eqb (Image.key image) (Image.key sel))
          (currentImages st) in
      if currentIndex <? Z.of_nat (length (currentImages st)) - 1
      then match currentImages st !! Z.to_nat (currentIndex + 1) with
           | Some image => setSelectedImage (Some image) st
           | None => st
           end
      else st
  end.

(** *** Date navigation *)

(** [setSelectedDate(v)] and the render after it.  A [Date] is a new
    object every time, so the effect runs again; [null] after [null] is
    the same state and nothing runs. *)
Definition setSelectedDate (v : option Date) (st : AppState) : AppState :=
  match selectedDate st, v with
  | None, None => st
  | _, _ => dateEffect (writeSelectedDate v st)
  end.

Definition handlePreviousDate (now : Date) (st : AppState) : AppState :=
  match selectedDate st with
  | Some d =>
      setSelectedDate (Some (mkDate (num_sub (getTime d) (Num msPerDay)))) st
  | None => setSelectedDate (Some now) st
  end.

Definition handleNextDate (st : AppState) : AppState :=
  match selectedDate st with
  | Some d =>
      setSelectedDate (Some (mkDate (num_add (getTime d) (Num msPerDay)))) st
  | None => st
  end.

Definition hasPreviousDate : bool := true.

(** [selectedDate ? !areDatesEqual(selectedDate, new Date()) : false]. *)
Definition hasNextDate (selectedDate : option Date) (now : Date) : bool :=
  match selectedDate with
  | Some d => negb (areDatesEqual d now)
  | None => false
  end.

(** The [onClick] of the Clear button, which is rendered only while a
    date is selected. *)
Definition clearClick (now : Date) (st : AppState) : AppState :=
  match selectedDate st with
  | Some _ => setSelectedDate (Some now) st
  | None => st
  end.

(** *** Events *)

Inductive Event : Type :=
| ListingSettled (fuel : nat)
| SentinelVisible
| PreviousDateClick (now : Date)
| NextDateClick (now : Date)
| ClearClick (now : Date)
| DatePicked (date : option Date)
| ImageClick (index : nat)
| ModalClose
| ModalPrevious
| ModalNext.

Definition step (st : AppState) (e : Event) : AppState :=
  match e with
  | ListingSettled fuel =>
      if listingPending st then
        match fetchObjectsTry fuel, fetchObjects fuel st with
        | Some (Normal _), Some st' => dateEffect (setListingPending false st')
        | Some (Throw _), Some st' => setListingPending false st'
        | _, _ => st
        end
      else st
  | SentinelVisible => loadMoreImages st
  | PreviousDateClick now =>
      if hasPreviousDate then handlePreviousDate now st else st
  | NextDateClick now =>
      if hasNextDate (selectedDate st) now then handleNextDate st else st
  | ClearClick now => clearClick now st
  | DatePicked date => setSelectedDate date st
  | ImageClick index =>
      match displayedImages st !! index with
      | Some image => handleImageClick image st
      | None => st
      end
  | ModalClose => handleCloseModal st
  | ModalPrevious => handlePreviousImage st
  | ModalNext => handleNextImage st
  end.

Definition run (st : AppState) (events : list Event) : AppState :=
  fold_left step events st.


(** *** Values derived at each render *)

(** [getImageCount]: the number shown in "Showing N images". *)
Definition getImageCount (st : AppState) : nat :=
  match selectedDate st with
  | None => length (images st)
  | Some d =>
      let selected := normalizeDate d in
      length (List.filter (fun image =>
                areDatesEqual (newDate (Image.lastModified image)) selected)
                (images st))
  end.

(** [hasPreviousImage]: the Previous button of the viewer is enabled. *)
Definition hasPreviousImage (st : AppState) : bool :=
  match selectedImage st with
  | Some sel =>
      0 <? findIndex (fun image => String.eqb (Image.key image) (Image.key sel))
             (currentImages st)
  | None => false
  end.

(** [hasNextImage]: the Next button of the viewer is enabled. *)
Definition hasNextImage (st : AppState) : bool :=
  match selectedImage st with
  | Some sel =>
      findIndex (fun image => String.eqb (Image.key image) (Image.key sel))
        (currentImages st)
      <? Z.of_nat (length (currentImages st)) - 1
  | None => false
  end.

(** ** ImageModal.tsx *)

(** [x.toFixed(1)] for [x = num / den] with [0 <= num] and [den] a
    power of two, so that the quotient is exact in binary floating point
    as long as [num] is below 2^53: the digits of the integer [n] for
    which [n / 10] is nearest to [x], the larger one on a tie, with the
    decimal point before the last digit. *)
Definition toFixed1 (num den : Z) : string :=
  let n := (20 * num + den) / (2 * den) in
  string_of_Z (n / 10) +:+ "." +:+ string_of_Z (n mod 10).

(** [formatFileSize], the file size shown in the viewer. *)
Definition formatFileSize (bytes : number) : string :=
  match bytes with
  | Num b =>
      if b <? 1024 then string_of_Z b +:+ " B"
      else if b <? 1024 * 1024 then toFixed1 b 1024 +:+ " KB"
      else toFixed1 b (1024 * 1024) +:+ " MB"
  | NaN => "NaN MB"
  end.

(** ** Properties *)

(** *** Calendar days *)

Lemma yearOfEra_bound (doe : Z) :
  0 <= doe <= 146096 -> 0 <= yearOfEra doe <= 399.
Proof.
  clear. intros H. unfold yearOfEra.
  Z.div_mod_to_equations; lia.
Qed.

Lemma dayOfYear_bound (doe : Z) :
  0 <= doe <= 146096 -> 0 <= dayOfYear doe <= 365.
Proof.
  clear. intros H. unfold dayOfYear, yearOfEra.
  Z.div_mod_to_equations; lia.
Qed.

Lemma monthIndex_bound (doy : Z) :
  0 <= doy <= 365 -> 0 <= monthIndex doy <= 11.
Proof.
  clear. intros H. unfold monthIndex.
  Z.div_mod_to_equations; lia.
Qed.

(** Two day numbers with the same year, month and day of the month are
    the same day. *)
Lemma civil_from_days_inj (z1 z2 : Z) :
  civil_from_days z1 = civil_from_days z2 -> z1 = z2.
Proof.
  clear. unfold civil_from_days.
  set (e1 := (z1 + 719468) / 146097). set (e2 := (z2 + 719468) / 146097).
  set (doe1 := z1 + 719468 - e1 * 146097).
  set (doe2 := z2 + 719468 - e2 * 146097).
  assert (0 <= doe1 <= 146096) as B1
    by (subst doe1 e1; Z.div_mod_to_equations; lia).
  assert (0 <= doe2 <= 146096) as B2
    by (subst doe2 e2; Z.div_mod_to_equations; lia).
  pose proof (yearOfEra_bound _ B1) as Y1.
  pose proof (yearOfEra_bound _ B2) as Y2.
  pose proof (dayOfYear_bound _ B1) as D1.
  pose proof (dayOfYear_bound _ B2) as D2.
  pose proof (monthIndex_bound _ D1) as M1.
  pose proof (monthIndex_bound _ D2) as M2.
  assert (doe1 = dayOfYear doe1
                 + (365 * yearOfEra doe1 + yearOfEra doe1 / 4
                    - yearOfEra doe1 / 100)) as R1 by (unfold dayOfYear; lia).
  assert (doe2 = dayOfYear doe2
                 + (365 * yearOfEra doe2 + yearOfEra doe2 / 4
                    - yearOfEra doe2 / 100)) as R2 by (unfold dayOfYear; lia).
  generalize dependent (monthIndex (dayOfYear doe1)). intros mp1 ?.
  generalize dependent (monthIndex (dayOfYear doe2)). intros mp2 ?.
  generalize dependent (dayOfYear doe1). intros doy1 ? ? ?.
  generalize dependent (dayOfYear doe2). intros doy2 ? ? ?.
  generalize dependent (yearOfEra doe1). intros y1 ? ?.
  generalize dependent (yearOfEra doe2). intros y2 ? ?.
  intros [= Ey Em Ed].
  destruct (Z.ltb_spec mp1 10), (Z.ltb_spec mp2 10);
    repeat match goal with
    | H : context [?a <=? ?b] |- _ => destruct (Z.leb_spec a b)
    end; try lia.
  all: assert (mp1 = mp2) by lia; subst mp2.
  all: assert (doy1 = doy2) by lia; subst doy2.
  all: assert (y1 = y2 /\ e1 = e2) as [-> He] by lia.
  all: subst doe1 doe2; lia.
Qed.

(** Year, month and day of the month of a valid date, in local time. *)
Definition calendarDay (d : Date) : option (Z * Z * Z) :=
  match getTime d with
  | Num t => Some (civil_from_days (localDay t))
  | NaN => None
  end.

(** Two dates are valid and fall on the same local calendar day, counted
    in days since 1970-01-01 in local time. *)
Definition sameLocalDay (d1 d2 : Date) : Prop :=
  exists t1 t2,
    getTime d1 = Num t1 /\ getTime d2 = Num t2 /\ localDay t1 = localDay t2.

Lemma msPerDay_pos : 0 < msPerDay.
Proof. reflexivity. Qed.

Lemma localDay_start (t : Z) :
  localDay (t - (t + tzOffset) mod msPerDay) = localDay t.
Proof.
  unfold localDay.
  pose proof (Z.div_mod (t + tzOffset) msPerDay ltac:(discriminate)) as E.
  replace (t - (t + tzOffset) mod msPerDay + tzOffset)
    with ((t + tzOffset) / msPerDay * msPerDay) by lia.
  apply Z.div_mul. discriminate.
Qed.

Lemma calendarDay_normalizeDate (d : Date) :
  calendarDay (normalizeDate d) = calendarDay d.
Proof.
  unfold calendarDay, normalizeDate, setHours0.
  destruct (getTime d); simpl; [reflexivity|].
  now rewrite localDay_start.
Qed.

Lemma normalizeDate_idem (d : Date) :
  normalizeDate (normalizeDate d) = normalizeDate d.
Proof.
  unfold normalizeDate, setHours0.
  destruct (getTime d) as [|t]; simpl; [reflexivity|].
  do 2 f_equal.
  replace (t - (t + tzOffset) mod msPerDay + tzOffset)
    with ((t + tzOffset) / msPerDay * msPerDay)
    by (pose proof (Z.div_mod (t + tzOffset) msPerDay ltac:(discriminate)); lia).
  rewrite Z.mod_mul by discriminate. lia.
Qed.

Lemma fields_calendarDay (d : Date) :
  match calendarDay d with
  | Some (y, m, dd) =>
      getFullYear d = Num y /\ getMonth d = Num m /\ getDate d = Num dd
  | None => getFullYear d = NaN /\ getMonth d = NaN /\ getDate d = NaN
  end.
Proof.
  unfold calendarDay, getFullYear, getMonth, getDate.
  destruct (getTime d) as [|t]; [auto|].
  destruct (civil_from_days (localDay t)) as [[y m] dd]. auto.
Qed.

(** [areDatesEqual] decides [sameLocalDay]: normalising a date does not
    change its calendar day, and year, month and day of the month
    determine the day. *)
Lemma areDatesEqual_spec (d1 d2 : Date) :
  areDatesEqual d1 d2 = true <-> sameLocalDay d1 d2.
Proof.
  unfold areDatesEqual, sameLocalDay.
  pose proof (fields_calendarDay (normalizeDate d1)) as F1.
  pose proof (fields_calendarDay (normalizeDate d2)) as F2.
  rewrite calendarDay_normalizeDate in F1, F2.
  unfold calendarDay in F1, F2.
  destruct (getTime d1) as [|t1].
  { destruct F1 as (-> & _). simpl.
    split; [discriminate|intros (? & ? & ? & _); discriminate]. }
  destruct (getTime d2) as [|t2].
  { destruct F2 as (-> & _).
    destruct (getFullYear (normalizeDate d1)); simpl;
      (split; [discriminate|intros (? & ? & _ & ? & _); discriminate]). }
  destruct (civil_from_days (localDay t1)) as [[y1 m1] a1] eqn:E1.
  destruct (civil_from_days (localDay t2)) as [[y2 m2] a2] eqn:E2.
  destruct F1 as (-> & -> & ->), F2 as (-> & -> & ->). simpl.
  rewrite !andb_true_iff, !Z.eqb_eq. split.
  - intros [[-> ->] ->]. exists t1, t2. repeat split.
    apply civil_from_days_inj. congruence.
  - intros (? & ? & [= <-] & [= <-] & H). rewrite H, E2 in E1.
    injection E1 as <- <- <-. auto.
Qed.

Lemma areDatesEqual_normalize_r (d1 d2 : Date) :
  areDatesEqual d1 (normalizeDate d2) = areDatesEqual d1 d2.
Proof. unfold areDatesEqual. now rewrite normalizeDate_idem. Qed.

(** *** Date navigation *)

(** C1, amended.  The Next button of the date navigation is off
    ([hasNextDate] is false) exactly when no date is selected or the
    selected date falls on the current local calendar day. *)
Theorem hasNextDate_false_iff (selectedDate : option Date) (now : Date) :
  hasNextDate selectedDate now = false <->
  selectedDate = None \/
  exists d, selectedDate = Some d /\ sameLocalDay d now.
Proof.
  destruct selectedDate as [d|]; simpl.
  - rewrite negb_false_iff, areDatesEqual_spec. split.
    + intros H. right. eauto.
    + intros [[=]|(d' & [= <-] & H)]. exact H.
  - split; auto.
Qed.

(** *** The date filter and the pager *)

#[local] Instance sameLocalDay_dec (d1 d2 : Date) : Decision (sameLocalDay d1 d2).
Proof.
  refine (cast_if (decide (areDatesEqual d1 d2 = true)));
    abstract (rewrite <- areDatesEqual_spec; assumption).
Defined.

(** The filtered subset in the words of the specification: the whole
    gallery when no date is selected, else the records whose date falls
    on the selected local day. *)
Definition filteredSubset (selectedDate : option Date)
  (gallery : list ObjectInfo.t) : list ObjectInfo.t :=
  match selectedDate with
  | None => gallery
  | Some d =>
      filter (fun obj => sameLocalDay (newDate (ObjectInfo.lastModified obj)) d)
        gallery
  end.

Lemma objectsToDisplay_filteredSubset (selectedDate : option Date)
  (gallery : list ObjectInfo.t) :
  objectsToDisplay selectedDate gallery = filteredSubset selectedDate gallery.
Proof.
  destruct selectedDate as [d|]; simpl; [|reflexivity].
  induction gallery as [|obj l IH]; simpl; [reflexivity|].
  rewrite filter_cons, <- IH, areDatesEqual_normalize_r.
  destruct (areDatesEqual _ d) eqn:E.
  - rewrite decide_True by (now apply areDatesEqual_spec). reflexivity.
  - rewrite decide_False; [reflexivity|].
    rewrite <- areDatesEqual_spec. congruence.
Qed.

Ltac fm_split :=
  unfold runFetchMetadata; simpl;
  match goal with
  | |- context [fetchMetadata ?l ?c] =>
      let c' := fresh "cache'" in
      let w := fresh "w" in
      let imgs := fresh "imgs" in
      let E := fresh "Efm" in
      destruct (fetchMetadata l c) as [[c' w] imgs] eqn:E; try rewrite E
  end.

Lemma fetchInitialImages_frame (st : AppState) :
  let st' := fetchInitialImages st in
  objects st' = objects st /\ selectedDate st' = selectedDate st /\
  uniqueDates st' = uniqueDates st /\ page st' = page st /\
  loading st' = false /\ error st' = error st /\
  selectedImage st' = selectedImage st /\
  listingPending st' = listingPending st /\
  images st' = displayedImages st' /\
  hasMore st' =
    (batchSize <? length (objectsToDisplay (selectedDate st) (objects st)))%nat.
Proof.
  clear parseFromString origin.
  unfold fetchInitialImages. simpl. fm_split. simpl. tauto.
Qed.

Lemma dateEffect_frame (st : AppState) :
  let st' := dateEffect st in
  objects st' = objects st /\ selectedDate st' = selectedDate st /\
  uniqueDates st' = uniqueDates st /\ page st' = 1%nat /\
  error st' = error st /\ selectedImage st' = selectedImage st /\
  listingPending st' = listingPending st /\
  images st' = displayedImages st'.
Proof.
  clear parseFromString origin.
  unfold dateEffect. simpl.
  destruct (0 <? length (objects st))%nat.
  - pose proof (fetchInitialImages_frame (dateEffectReset st)) as F.
    simpl in F. tauto.
  - simpl. tauto.
Qed.

Lemma dateEffect_loaded (st : AppState) :
  objects st <> [] ->
  let st' := dateEffect st in
  loading st' = false /\
  hasMore st' =
    (batchSize <? length (objectsToDisplay (selectedDate st) (objects st)))%nat.
Proof.
  clear parseFromString origin.
  intros Hne. unfold dateEffect. simpl.
  destruct (objects st) as [|o l] eqn:E; [congruence|]. simpl.
  pose proof (fetchInitialImages_frame (dateEffectReset st)) as F.
  simpl in F. rewrite E in F. tauto.
Qed.

Lemma loadMoreImages_idle (st : AppState) :
  hasMore st = false \/ loading st = true -> loadMoreImages st = st.
Proof.
  unfold loadMoreImages. intros [-> | ->]; simpl; [reflexivity|].
  now rewrite orb_true_r.
Qed.

Lemma loadMoreImages_frame (st : AppState) :
  hasMore st = true -> loading st = false ->
  let st' := loadMoreImages st in
  objects st' = objects st /\ selectedDate st' = selectedDate st /\
  uniqueDates st' = uniqueDates st /\ page st' = (page st + 1)%nat /\
  loading st' = false /\ error st' = error st /\
  selectedImage st' = selectedImage st /\
  listingPending st' = listingPending st /\
  hasMore st' =
    ((page st + 1) * batchSize
     <? length (objectsToDisplay (selectedDate st) (objects st)))%nat.
Proof.
  clear parseFromString origin.
  intros Hm Hl. unfold loadMoreImages. rewrite Hm, Hl. simpl.
  fm_split. simpl. tauto.
Qed.



(** *** The bucket listing *)

(** [Requested n token acc]: after [n] good pages the loop asks for the
    page of [token] with [acc] accumulated. *)
Inductive Requested : nat -> option string -> list ObjectInfo.t -> Prop :=
| Requested_first : Requested 0 None []
| Requested_next n token acc objs next :
    Requested n token acc ->
    listingPage token = Normal (objs, Some next) ->
    Requested (S n) (Some next) (acc ++ objs).

Lemma listingLoop_requested n token acc :
  Requested n token acc ->
  forall fuel, listingLoop (n + fuel) None [] = listingLoop fuel token acc.
Proof.
  induction 1 as [|n token acc objs next _ IH Hpage]; intros fuel.
  - reflexivity.
  - replace (S n + fuel)%nat with (n + S fuel)%nat by lia.
    rewrite IH. simpl. now rewrite Hpage.
Qed.

Lemma listingLoop_more_fuel (fuel : nat) (token : option string)
  (acc : list ObjectInfo.t) (r : Completion (list ObjectInfo.t)) :
  listingLoop fuel token acc = Some r ->
  forall fuel', (fuel <= fuel')%nat -> listingLoop fuel' token acc = Some r.
Proof.
  revert token acc. induction fuel as [|fuel IH]; intros token acc; simpl;
    [discriminate|].
  intros H [|fuel'] Hle; [lia|]. simpl.
  destruct (listingPage token) as [[objs [next|]]|m]; auto.
  apply IH; [exact H|lia].
Qed.

(** The outcome of the listing does not depend on the fuel that was
    enough to reach it. *)
Lemma listingLoop_deterministic (fuel1 fuel2 : nat) (token : option string)
  (acc : list ObjectInfo.t) (r1 r2 : Completion (list ObjectInfo.t)) :
  listingLoop fuel1 token acc = Some r1 ->
  listingLoop fuel2 token acc = Some r2 -> r1 = r2.
Proof.
  intros H1 H2.
  pose proof (listingLoop_more_fuel _ _ _ _ H1 (Nat.max fuel1 fuel2)
                ltac:(lia)) as H1'.
  pose proof (listingLoop_more_fuel _ _ _ _ H2 (Nat.max fuel1 fuel2)
                ltac:(lia)) as H2'.
  congruence.
Qed.

(** The test of the component for a browser page. *)
Definition looksLikeHtml (text : string) : bool :=
  startsWith (trim text) "<!DOCTYPE html>" || includes text "<html".

(** The page of [token] arrives with a success status and a payload
    that is a browser page or does not parse. *)
Definition BadPayload (token : option string) : Prop :=
  exists response,
    fetch GET (listingUrl token) = Resolved response /\
    ok response = true /\
    (looksLikeHtml (text response) = true \/
     parsererror (parseFromString (text response)) = true).

Lemma listingPage_bad (token : option string) :
  BadPayload token ->
  listingPage token = Throw htmlMessage \/ listingPage token = Throw parseMessage.
Proof.
  intros (response & Hf & Hok & Hbad). unfold listingPage.
  rewrite Hf, Hok. simpl. fold (looksLikeHtml (text response)).
  destruct (looksLikeHtml (text response)); [now left|].
  destruct Hbad as [[=] | ->]. now right.
Qed.

Lemma errorMessage_format (message : string) :
  message = htmlMessage \/ message = parseMessage \/ message = noObjectsMessage ->
  errorMessage message = message.
Proof. intros [->|[->| ->]]; reflexivity. Qed.

(** C3.  When the listing loop reaches a page whose payload is a
    browser page or does not parse, [fetchObjects] ends in its [catch]
    block: the error shown is the message for that defect, and the
    objects, the dates, the images, the displayed images, the page
    cursor, the cache and the selection are those from before the
    load. *)
Theorem malformed_listing_fails (n : nat) (token : option string)
  (acc : list ObjectInfo.t) (st : AppState) (fuel : nat) :
  Requested n token acc -> BadPayload token -> (n < fuel)%nat ->
  listingPending st = true ->
  exists message st',
    (message = htmlMessage \/ message = parseMessage) /\
    listingLoop fuel None [] = Some (Throw message) /\
    fetchObjects fuel st = Some st' /\
    step st (ListingSettled fuel) = setListingPending false st' /\
    error st' = Some message /\ loading st' = false /\
    objects st' = objects st /\ uniqueDates st' = uniqueDates st /\
    images st' = images st /\ displayedImages st' = displayedImages st /\
    page st' = page st /\ hasMore st' = hasMore st /\
    metadataCache st' = metadataCache st /\
    selectedDate st' = selectedDate st /\ selectedImage st' = selectedImage st.
Proof.
  intros Hreq Hbad Hfuel Hpend.
  assert (exists message,
             (message = htmlMessage \/ message = parseMessage) /\
             listingLoop fuel None [] = Some (Throw message)) as (message & Hm & Hloop).
  { replace fuel with (n + S (fuel - n - 1))%nat by lia.
    rewrite (listingLoop_requested _ _ _ Hreq). simpl.
    destruct (listingPage_bad token Hbad) as [-> | ->]; eauto. }
  assert (fetchObjectsTry fuel = Some (Throw message)) as Htry.
  { unfold fetchObjectsTry. now rewrite Hloop. }
  exists message. eexists. split; [exact Hm|]. split; [exact Hloop|].
  unfold step, fetchObjects. rewrite Hpend, Htry.
  rewrite errorMessage_format by tauto.
  repeat split; reflexivity.
Qed.

Lemma mapC_throw {A B : Type} (f : A -> Completion B) (l : list A) (m : string) :
  mapC f l = Throw m -> exists x, In x l /\ f x = Throw m.
Proof.
  induction l as [|x l IH]; simpl; [discriminate|].
  destruct (f x) as [y|m'] eqn:E; simpl.
  - destruct (mapC f l); simpl; [discriminate|].
    intros [= <-]. destruct IH as (x' & Hin & Hx); eauto.
  - intros [= <-]. eauto.
Qed.

Lemma computeDates_throw (l : list ObjectInfo.t) (m : string) :
  computeDates l = Throw m -> m = "Invalid time value".
Proof.
  unfold computeDates.
  destruct (mapC _ l) as [ts|m'] eqn:E; simpl; [discriminate|].
  intros [= <-]. apply mapC_throw in E as (obj & _ & E).
  unfold toISOString in E. destruct (getTime _); congruence.
Qed.

(** C7, amended.  When the listing completes, [fetchObjects] raises
    the empty-result error exactly when the listing has no entry at
    all, counted before the extension filter.  So a listing with an
    image does not raise it, and a listing with entries none of which
    is an image ends without error and with an empty gallery. *)
Theorem empty_listing_error (fuel : nat) (objectList : list ObjectInfo.t)
  (st : AppState) :
  listingLoop fuel None [] = Some (Normal objectList) ->
  (fetchObjectsTry fuel = Some (Throw noObjectsMessage) <-> objectList = []) /\
  (objectList = [] ->
   exists st', fetchObjects fuel st = Some st' /\
               error st' = Some noObjectsMessage /\ objects st' = objects st) /\
  (List.filter (fun obj => isImageKey (ObjectInfo.key obj)) objectList <> [] ->
   fetchObjectsTry fuel <> Some (Throw noObjectsMessage)) /\
  (objectList <> [] ->
   List.filter (fun obj => isImageKey (ObjectInfo.key obj)) objectList = [] ->
   exists st', fetchObjects fuel st = Some st' /\
               error st' = error st /\ objects st' = [] /\ uniqueDates st' = []).
Proof.
  intros Hloop.
  assert (fetchObjectsTry fuel = Some (Throw noObjectsMessage) <-> objectList = [])
    as Hiff.
  { unfold fetchObjectsTry. rewrite Hloop. simpl.
    destruct objectList as [|o l]; simpl; [tauto|].
    split; [|discriminate].
    destruct (computeDates _) as [dates|m] eqn:E; simpl; [discriminate|].
    apply computeDates_throw in E. subst m. discriminate. }
  split; [exact Hiff|]. split; [|split].
  - intros Hnil. apply Hiff in Hnil. unfold fetchObjects. rewrite Hnil.
    eexists. split; [reflexivity|]. simpl. auto.
  - intros Hne Htry. apply Hiff in Htry. subst objectList. now apply Hne.
  - intros Hne Hfilter. unfold fetchObjects, fetchObjectsTry. rewrite Hloop.
    simpl. destruct objectList as [|o l]; [congruence|].
    unfold filterAndSort. rewrite Hfilter. simpl.
    eexists. split; [reflexivity|]. simpl. auto.
Qed.

(** *** The metadata enricher *)

Definition probeUrl (obj : ObjectInfo.t) : string :=
  bucketUrl +:+ encodeURIComponent (ObjectInfo.key obj).

(** The probe of [obj] fails: a network error or a status that is not
    a success. *)
Definition probeFails (obj : ObjectInfo.t) : bool :=
  match fetch HEAD (probeUrl obj) with
  | Resolved response => negb (ok response)
  | Rejected _ => true
  end.

(** The size that a probe that does not fail reports. *)
Definition probedSize (obj : ObjectInfo.t) : number :=
  match fetch HEAD (probeUrl obj) with
  | Resolved response => parseInt (str_or (headers response "Content-Length") "0")
  | Rejected _ => NaN
  end.

(** The record is served from the cache, or its probe succeeds with a
    size that is not below the floor. *)
Definition retained (cache : gmap string Image.t) (obj : ObjectInfo.t) : bool :=
  match cache !! ObjectInfo.key obj with
  | Some _ => true
  | None => negb (probeFails obj) && negb (num_lt (probedSize obj) (Num minFileSize))
  end.

Lemma retained_key (cache : gmap string Image.t) (o1 o2 : ObjectInfo.t) :
  ObjectInfo.key o1 = ObjectInfo.key o2 -> retained cache o1 = retained cache o2.
Proof.
  intros E. unfold retained, probeFails, probedSize, probeUrl. now rewrite E.
Qed.

(** What the console receives for [obj]: one warning when it is probed
    and the probe fails. *)
Definition probeWarning (cache : gmap string Image.t) (obj : ObjectInfo.t)
  : list ConsoleEntry :=
  match cache !! ObjectInfo.key obj, fetch HEAD (probeUrl obj) with
  | Some _, _ => []
  | None, Rejected _ =>
      [Warn ("Error fetching metadata for " +:+ ObjectInfo.key obj +:+ ":")]
  | None, Resolved response =>
      if ok response then []
      else [Warn ("Failed to fetch metadata for " +:+ ObjectInfo.key obj)]
  end.

(** Every cached image sits under its own key. *)
Definition cacheKeyed (cache : gmap string Image.t) : Prop :=
  forall k img, cache !! k = Some img -> Image.key img = k.

Definition toObject (image : Image.t) : ObjectInfo.t :=
  ObjectInfo.mk (Image.key image) (Image.lastModified image).

(** The four ways a task ends. *)
Lemma fetchMetadataTask_cases (cache : gmap string Image.t) (obj : ObjectInfo.t) :
  (exists cached, cache !! ObjectInfo.key obj = Some cached /\
     fetchMetadataTask cache obj = (cache, [], Some cached)) \/
  (cache !! ObjectInfo.key obj = None /\ probeFails obj = true /\
     fetchMetadataTask cache obj = (cache, probeWarning cache obj, None) /\
     length (probeWarning cache obj) = 1%nat) \/
  (cache !! ObjectInfo.key obj = None /\ probeFails obj = false /\
     num_lt (probedSize obj) (Num minFileSize) = true /\
     fetchMetadataTask cache obj = (cache, [], None) /\
     probeWarning cache obj = []) \/
  (cache !! ObjectInfo.key obj = None /\ probeFails obj = false /\
     num_lt (probedSize obj) (Num minFileSize) = false /\
     probeWarning cache obj = [] /\
     exists response,
       fetch HEAD (probeUrl obj) = Resolved response /\ ok response = true /\
       let image :=
         Image.mk (ObjectInfo.key obj) (ObjectInfo.lastModified obj)
           (parseInt (str_or (headers response "Content-Length") "0"))
           (str_or (headers response "Content-Type") "unknown") in
       fetchMetadataTask cache obj
       = (<[ObjectInfo.key obj := image]> cache, [], Some image)).
Proof.
  unfold fetchMetadataTask, probeFails, probedSize, probeWarning.
  fold (probeUrl obj).
  destruct (cache !! ObjectInfo.key obj) as [cached|] eqn:Ec; [left; eauto|].
  right.
  destruct (fetch HEAD (probeUrl obj)) as [response|err] eqn:Ef.
  - destruct (ok response) eqn:Eok; simpl.
    + right.
      destruct (num_lt _ (Num minFileSize)) eqn:Elt; [left; auto|].
      right. repeat split; auto. exists response. auto.
    + left. auto.
  - left. auto.
Qed.

Lemma retained_after_task (cache cache' : gmap string Image.t) (obj o : ObjectInfo.t)
  (w : list ConsoleEntry) (r : option Image.t) :
  fetchMetadataTask cache obj = (cache', w, r) ->
  retained cache' o = retained cache o /\
  probeWarning cache' o = probeWarning cache o.
Proof.
  intros E.
  destruct (fetchMetadataTask_cases cache obj)
    as [(c & _ & E') | [(_ & _ & E' & _) | [(_ & _ & _ & E' & _) |
        (Ec & Hf & Hlt & _ & response & Hr & Hok & E')]]];
    rewrite E' in E; injection E as <- <- <-; auto.
  unfold retained, probeWarning.
  destruct (decide (ObjectInfo.key obj = ObjectInfo.key o)) as [Ek|Ek].
  - rewrite <- Ek, lookup_insert_eq, Ec.
    unfold probeFails, probedSize, probeUrl in *. rewrite <- Ek.
    rewrite Hr in *. rewrite Hf, Hlt, Hok. auto.
  - rewrite lookup_insert_ne by exact Ek. auto.
Qed.

Lemma cacheKeyed_after_task (cache cache' : gmap string Image.t)
  (obj : ObjectInfo.t) (w : list ConsoleEntry) (r : option Image.t) :
  cacheKeyed cache -> fetchMetadataTask cache obj = (cache', w, r) ->
  cacheKeyed cache' /\
  match r with
  | Some image => Image.key image = ObjectInfo.key obj /\ retained cache obj = true
  | None => retained cache obj = false
  end /\
  w = probeWarning cache obj.
Proof.
  intros Hk E.
  destruct (fetchMetadataTask_cases cache obj)
    as [(c & Ec & E') | [(Ec & Hf & E' & _) | [(Ec & Hf & Hlt & E' & Hw) |
        (Ec & Hf & Hlt & Hw & response & Hr & Hok & E')]]];
    rewrite E' in E; injection E as <- <- <-; unfold retained; rewrite Ec.
  - split; [exact Hk|]. split; [|unfold probeWarning; now rewrite Ec].
    split; [now apply Hk|reflexivity].
  - split; [exact Hk|]. rewrite Hf. auto.
  - split; [exact Hk|]. rewrite Hf, Hlt. auto.
  - rewrite Hf, Hlt. split; [|auto].
    intros k img. rewrite lookup_insert. case_decide as Ek.
    + intros [= <-]. exact Ek.
    + apply Hk.
Qed.

(** C5.  For every batch and every cache whose entries sit under
    their own keys, [fetchMetadata] returns, in the order of the batch,
    one image for each record that is cached or whose probe succeeds
    with a size that is not below the floor, and nothing for a record
    whose probe fails; the console receives one warning for each probe
    that fails.  A failing probe changes nothing for the other
    records. *)
Theorem fetchMetadata_drops_failures (objectsToFetch : list ObjectInfo.t)
  (cache : gmap string Image.t) :
  cacheKeyed cache ->
  let '(cache', w, newImages) := fetchMetadata objectsToFetch cache in
  map Image.key newImages
  = map ObjectInfo.key (List.filter (retained cache) objectsToFetch) /\
  w = flat_map (probeWarning cache) objectsToFetch /\
  (forall obj, In obj objectsToFetch ->
     cache !! ObjectInfo.key obj = None -> probeFails obj = true ->
     ~ In (ObjectInfo.key obj) (map Image.key newImages) /\
     length (probeWarning cache obj) = 1%nat) /\
  cacheKeyed cache'.
Proof.
  revert cache. induction objectsToFetch as [|obj rest IH]; intros cache Hk.
  - simpl. split; [reflexivity|]. split; [reflexivity|].
    split; [intros o Hin; destruct Hin|exact Hk].
  - simpl.
    destruct (fetchMetadataTask cache obj) as [[cache1 w1] r] eqn:E1.
    destruct (cacheKeyed_after_task _ _ _ _ _ Hk E1) as (Hk1 & Hr & Hw1).
    specialize (IH cache1 Hk1).
    destruct (fetchMetadata rest cache1) as [[cache2 w2] imgs] eqn:E2.
    destruct IH as (IHkeys & IHw & _ & IHk).
    assert (List.filter (retained cache1) rest = List.filter (retained cache) rest)
      as Hfilter.
    { apply List.filter_ext. intros o.
      apply (retained_after_task _ _ _ o _ _ E1). }
    assert (flat_map (probeWarning cache1) rest = flat_map (probeWarning cache) rest)
      as Hflat.
    { apply List.flat_map_ext. intros o.
      apply (retained_after_task _ _ _ o _ _ E1). }
    assert (map Image.key (option_list r ++ imgs)
            = map ObjectInfo.key (List.filter (retained cache) (obj :: rest)))
      as Hkeys.
    { simpl. rewrite map_app, IHkeys, Hfilter.
      destruct r as [image|].
      - destruct Hr as (Hkey & ->). simpl. now rewrite Hkey.
      - rewrite Hr. reflexivity. }
    split; [exact Hkeys|]. split; [now rewrite Hw1, IHw, Hflat|].
    split; [|exact IHk].
    intros o Hin Hc Hf. rewrite Hkeys. split.
    + rewrite in_map_iff. intros (o' & Hkey & Hin').
      apply List.filter_In in Hin' as (_ & Hret).
      rewrite (retained_key cache o' o Hkey) in Hret.
      unfold retained in Hret. rewrite Hc, Hf in Hret. discriminate.
    + unfold probeWarning. unfold probeFails in Hf. rewrite Hc.
      destruct (fetch HEAD (probeUrl o)) as [response|]; [|reflexivity].
      destruct (ok response); [discriminate|reflexivity].
Qed.

(** A property of images that holds in the cache and for every image
    that a probe can build holds for what [fetchMetadata] returns and
    leaves in the cache. *)
Lemma fetchMetadata_preserves (Q : Image.t -> Prop)
  (objectsToFetch : list ObjectInfo.t) (cache : gmap string Image.t) :
  (forall k img, cache !! k = Some img -> Q img) ->
  (forall obj response,
      In obj objectsToFetch ->
      fetch HEAD (probeUrl obj) = Resolved response -> ok response = true ->
      let size := parseInt (str_or (headers response "Content-Length") "0") in
      num_lt size (Num minFileSize) = false ->
      Q (Image.mk (ObjectInfo.key obj) (ObjectInfo.lastModified obj) size
           (str_or (headers response "Content-Type") "unknown"))) ->
  let '(cache', w, newImages) := fetchMetadata objectsToFetch cache in
  Forall Q newImages /\ (forall k img, cache' !! k = Some img -> Q img).
Proof.
  revert cache.
  induction objectsToFetch as [|obj rest IH]; intros cache Hc Hnew; simpl.
  - split; [constructor|exact Hc].
  - destruct (fetchMetadataTask cache obj) as [[cache1 w1] r] eqn:E1.
    assert ((forall k img, cache1 !! k = Some img -> Q img) /\
            (forall img, r = Some img -> Q img)) as (Hc1 & Hr).
    { destruct (fetchMetadataTask_cases cache obj)
        as [(c & Ec & E') | [(_ & _ & E' & _) | [(_ & _ & _ & E' & _) |
            (Ec & _ & Hlt & _ & response & Hresp & Hok & E')]]];
        rewrite E' in E1; injection E1 as <- <- <-.
      - split; [exact Hc|]. intros img [= <-]. eauto.
      - split; [exact Hc|]. discriminate.
      - split; [exact Hc|]. discriminate.
      - unfold probedSize in Hlt. rewrite Hresp in Hlt.
        pose proof (Hnew obj response (or_introl eq_refl) Hresp Hok Hlt) as HQ.
        split.
        + intros k img. rewrite lookup_insert. case_decide.
          * intros [= <-]. exact HQ.
          * apply Hc.
        + intros img [= <-]. exact HQ. }
    specialize (IH cache1 Hc1).
    destruct (fetchMetadata rest cache1) as [[cache2 w2] imgs].
    destruct IH as (IHimgs & IHc).
    { intros o response Hin. apply Hnew. now right. }
    split; [|exact IHc].
    destruct r as [img|]; simpl; [constructor; auto|exact IHimgs].
Qed.

Lemma fetchInitialImages_result (st : AppState) :
  let st' := fetchInitialImages st in
  let '(cache', w, newImages) :=
    fetchMetadata
      (slice 0 batchSize (objectsToDisplay (selectedDate st) (objects st)))
      (metadataCache st) in
  images st' = newImages /\ displayedImages st' = newImages /\
  metadataCache st' = cache' /\ console st' = console st ++ w.
Proof.
  unfold fetchInitialImages. simpl. fm_split. simpl.
  repeat split; reflexivity.
Qed.

Lemma dateEffect_result (st : AppState) :
  let st' := dateEffect st in
  (objects st = [] /\ images st' = [] /\ displayedImages st' = [] /\
   metadataCache st' = ∅ /\ console st' = console st) \/
  (objects st <> [] /\
   let '(cache', w, newImages) :=
     fetchMetadata
       (slice 0 batchSize (objectsToDisplay (selectedDate st) (objects st))) ∅ in
   images st' = newImages /\ displayedImages st' = newImages /\
   metadataCache st' = cache' /\ console st' = console st ++ w).
Proof.
  unfold dateEffect. simpl.
  destruct (objects st) as [|o l] eqn:E; simpl.
  - left. simpl. auto.
  - right. split; [discriminate|].
    pose proof (fetchInitialImages_result (dateEffectReset st)) as R.
    simpl in R. rewrite E in R. exact R.
Qed.

Lemma loadMoreImages_result (st : AppState) :
  hasMore st = true -> loading st = false ->
  let st' := loadMoreImages st in
  let '(cache', w, newImages) :=
    fetchMetadata
      (slice (page st * batchSize) ((page st + 1) * batchSize)
         (objectsToDisplay (selectedDate st) (objects st)))
      (metadataCache st) in
  images st' = images st ++ newImages /\
  displayedImages st' = displayedImages st ++ newImages /\
  metadataCache st' = cache' /\ console st' = console st ++ w.
Proof.
  intros Hm Hl. unfold loadMoreImages. rewrite Hm, Hl. simpl.
  fm_split. simpl. repeat split; reflexivity.
Qed.

(** *** Invariants of the component *)

Lemma run_invariant (Inv : AppState -> Prop) :
  (forall st e, Inv st -> Inv (step st e)) ->
  forall events st, Inv st -> Inv (run st events).
Proof.
  intros Hstep events. unfold run.
  induction events as [|e events IH]; intros st Hst; simpl; auto.
Qed.

(** The images that the state holds on to. *)
Definition Retains (st : AppState) (image : Image.t) : Prop :=
  In image (images st) \/ In image (displayedImages st) \/
  (exists k, metadataCache st !! k = Some image) \/
  selectedImage st = Some image.

Lemma currentImages_incl (st : AppState) (image : Image.t) :
  In image (currentImages st) -> In image (images st).
Proof.
  unfold currentImages. destruct (selectedDate st); [|auto].
  intros H. now apply List.filter_In in H.
Qed.

Lemma lookup_In {A : Type} (l : list A) (i : nat) (x : A) :
  l !! i = Some x -> In x l.
Proof. intros H. apply list_elem_of_In. eapply list_elem_of_lookup_2, H. Qed.

Section RetainedImages.

Variable Q : Image.t -> Prop.
Hypothesis Q_probe :
  forall obj response,
    fetch HEAD (probeUrl obj) = Resolved response -> ok response = true ->
    let size := parseInt (str_or (headers response "Content-Length") "0") in
    num_lt size (Num minFileSize) = false ->
    Q (Image.mk (ObjectInfo.key obj) (ObjectInfo.lastModified obj) size
         (str_or (headers response "Content-Type") "unknown")).

Definition AllRetained (st : AppState) : Prop :=
  forall image, Retains st image -> Q image.

Lemma dateEffect_retained (st : AppState) :
  (forall image, selectedImage st = Some image -> Q image) ->
  AllRetained (dateEffect st).
Proof.
  intros Hsel image.
  destruct (dateEffect_frame st) as (_ & _ & _ & _ & _ & Hs & _).
  unfold Retains. rewrite Hs.
  destruct (dateEffect_result st)
    as [(_ & -> & -> & -> & _) | (_ & R)].
  - intros [[]|[[]|[(k & Hk)|H]]]; [|auto].
    rewrite lookup_empty in Hk. discriminate.
  - pose proof (fetchMetadata_preserves Q
      (slice 0 batchSize (objectsToDisplay (selectedDate st) (objects st))) ∅)
      as P.
    destruct (fetchMetadata _ ∅) as [[cache' w] imgs].
    destruct R as (-> & -> & -> & _).
    destruct P as (Pimgs & Pc).
    { intros k img Hk. rewrite lookup_empty in Hk. discriminate. }
    { intros obj response _. apply Q_probe. }
    rewrite List.Forall_forall in Pimgs.
    intros [H|[H|[(k & Hk)|H]]]; eauto.
Qed.

Lemma loadMoreImages_retained (st : AppState) :
  AllRetained st -> AllRetained (loadMoreImages st).
Proof.
  intros Hst.
  destruct (hasMore st) eqn:Hm; [|now rewrite loadMoreImages_idle by auto].
  destruct (loading st) eqn:Hl; [now rewrite loadMoreImages_idle by auto|].
  intros image.
  destruct (loadMoreImages_frame st Hm Hl) as (_ & _ & _ & _ & _ & _ & Hs & _).
  pose proof (loadMoreImages_result st Hm Hl) as R. simpl in R.
  pose proof (fetchMetadata_preserves Q
    (slice (page st * batchSize) ((page st + 1) * batchSize)
       (objectsToDisplay (selectedDate st) (objects st))) (metadataCache st))
    as P.
  destruct (fetchMetadata _ (metadataCache st)) as [[cache' w] imgs].
  destruct R as (Hi & Hd & Hc & _).
  destruct P as (Pimgs & Pc).
  { intros k img Hk. apply Hst. unfold Retains. eauto. }
  { intros obj response _. apply Q_probe. }
  rewrite List.Forall_forall in Pimgs.
  unfold Retains. rewrite Hi, Hd, Hc, Hs, !in_app_iff.
  intros [[H|H]|[[H|H]|[(k & Hk)|H]]]; eauto;
    apply Hst; unfold Retains; auto.
Qed.

Lemma setSelectedDate_retained (v : option Date) (st : AppState) :
  AllRetained st -> AllRetained (setSelectedDate v st).
Proof.
  intros Hst. unfold setSelectedDate.
  assert (AllRetained (dateEffect (writeSelectedDate v st))) as H.
  { apply dateEffect_retained. intros image Hs. apply Hst.
    unfold Retains. auto. }
  destruct (selectedDate st), v; auto.
Qed.

Lemma step_retained (st : AppState) (e : Event) :
  AllRetained st -> AllRetained (step st e).
Proof.
  intros Hst. destruct e as [fuel| |now|now|now|date|index| | |]; simpl.
  - destruct (listingPending st); [|exact Hst].
    unfold fetchObjects.
    destruct (fetchObjectsTry fuel) as [[[objs dates]|message]|]; [| |exact Hst].
    + apply dateEffect_retained. simpl. intros image Hs. apply Hst.
      unfold Retains. auto.
    + intros image Hr. apply Hst. exact Hr.
  - now apply loadMoreImages_retained.
  - unfold handlePreviousDate.
    destruct (selectedDate st); now apply setSelectedDate_retained.
  - destruct (hasNextDate _ now); [|exact Hst]. unfold handleNextDate.
    destruct (selectedDate st); [now apply setSelectedDate_retained|exact Hst].
  - unfold clearClick.
    destruct (selectedDate st); [now apply setSelectedDate_retained|exact Hst].
  - now apply setSelectedDate_retained.
  - destruct (displayedImages st !! index) as [image|] eqn:E; [|exact Hst].
    intros img [H|[H|[H|H]]]; simpl in H.
    + apply Hst. unfold Retains. auto.
    + apply Hst. unfold Retains. auto.
    + apply Hst. unfold Retains. auto.
    + injection H as <-. apply Hst. unfold Retains.
      right. left. eapply lookup_In, E.
  - intros img [H|[H|[H|H]]]; simpl in H; [| | |discriminate];
      apply Hst; unfold Retains; auto.
  - unfold handlePreviousImage.
    destruct (selectedImage st) as [sel|] eqn:Es; [|exact Hst].
    destruct (0 <? _); [|exact Hst].
    destruct (currentImages st !! _) as [image|] eqn:E; [|exact Hst].
    intros img [H|[H|[H|H]]]; simpl in H;
      try (apply Hst; unfold Retains; now auto).
    injection H as <-. apply Hst. left.
    eapply currentImages_incl, lookup_In, E.
  - unfold handleNextImage.
    destruct (selectedImage st) as [sel|] eqn:Es; [|exact Hst].
    destruct (_ <? _); [|exact Hst].
    destruct (currentImages st !! _) as [image|] eqn:E; [|exact Hst].
    intros img [H|[H|[H|H]]]; simpl in H;
      try (apply Hst; unfold Retains; now auto).
    injection H as <-. apply Hst. left.
    eapply currentImages_incl, lookup_In, E.
Qed.

Lemma run_retained (now : Date) (events : list Event) :
  AllRetained (run (initialState now) events).
Proof.
  apply run_invariant; [exact step_retained|].
  intros image [[]|[[]|[(k & Hk)|H]]]; [|discriminate].
  simpl in Hk. rewrite lookup_empty in Hk. discriminate.
Qed.

End RetainedImages.

(** X25.  Every image that the component holds on to, in any state it
    can reach (the images, the displayed images, the entries of the
    metadata cache and the image in the viewer), has a size for which the
    test [size < minFileSize] is false: it is never a number below 10240.
    Provided every successful probe answers with a [Content-Length] that
    reads as a number, the size is a number of at least 10240. *)
Theorem retained_size_at_least_floor (now : Date) (events : list Event)
  (image : Image.t) :
  Retains (run (initialState now) events) image ->
  num_lt (Image.size image) (Num 10240) = false /\
  ((forall url response,
       fetch HEAD url = Resolved response -> ok response = true ->
       parseInt (str_or (headers response "Content-Length") "0") <> NaN) ->
   num_ge (Image.size image) (Num 10240) = true).
Proof.
  intros Hret. split.
  - revert image Hret.
    apply (run_retained
             (fun image => num_lt (Image.size image) (Num 10240) = false)).
    intros obj response Hresp Hok size Hlt. exact Hlt.
  - intros Hnum. revert image Hret.
    apply (run_retained
             (fun image => num_ge (Image.size image) (Num 10240) = true)).
    intros obj response Hresp Hok size Hlt. simpl.
    specialize (Hnum _ _ Hresp Hok). fold size in Hnum.
    destruct size as [|z]; [congruence|].
    simpl in Hlt |- *. unfold minFileSize in Hlt. lia.
Qed.

(** *** The selected date *)

Lemma setSelectedDate_run (v : option Date) (st : AppState) :
  selectedDate st <> None \/ v <> None ->
  setSelectedDate v st = dateEffect (writeSelectedDate v st).
Proof.
  unfold setSelectedDate. destruct (selectedDate st), v; auto.
  intros [H|H]; congruence.
Qed.

Lemma setSelectedDate_selectedDate (v : option Date) (st : AppState) :
  selectedDate (setSelectedDate v st) = v.
Proof.
  unfold setSelectedDate.
  pose proof (dateEffect_frame (writeSelectedDate v st)) as (_ & Hd & _).
  simpl in Hd. destruct (selectedDate st) eqn:E, v; auto.
Qed.

Lemma loadMoreImages_selectedDate (st : AppState) :
  selectedDate (loadMoreImages st) = selectedDate st /\
  objects (loadMoreImages st) = objects st.
Proof.
  destruct (hasMore st) eqn:Hm; [|now rewrite loadMoreImages_idle by auto].
  destruct (loading st) eqn:Hl; [now rewrite loadMoreImages_idle by auto|].
  destruct (loadMoreImages_frame st Hm Hl) as (Ho & Hd & _). auto.
Qed.

(** The selected date after an event. *)
Lemma step_selectedDate (st : AppState) (e : Event) :
  selectedDate (step st e) =
  match e with
  | PreviousDateClick now =>
      match selectedDate st with
      | Some d => Some (mkDate (num_sub (getTime d) (Num msPerDay)))
      | None => Some now
      end
  | NextDateClick now =>
      match selectedDate st with
      | Some d =>
          if areDatesEqual d now then Some d
          else Some (mkDate (num_add (getTime d) (Num msPerDay)))
      | None => None
      end
  | ClearClick now =>
      match selectedDate st with
      | Some _ => Some now
      | None => None
      end
  | DatePicked date => date
  | _ => selectedDate st
  end.
Proof.
  destruct e as [fuel| |now|now|now|date|index| | |]; simpl.
  - destruct (listingPending st); [|reflexivity].
    unfold fetchObjects.
    destruct (fetchObjectsTry fuel) as [[[objs dates]|message]|];
      [|reflexivity|reflexivity].
    now destruct (dateEffect_frame
      (setListingPending false
         (setLoading false
            (setUniqueDates dates (setObjects objs (setLoading true st))))))
      as (_ & -> & _).
  - apply loadMoreImages_selectedDate.
  - unfold handlePreviousDate.
    destruct (selectedDate st); apply setSelectedDate_selectedDate.
  - unfold hasNextDate, handleNextDate.
    destruct (selectedDate st) as [d|] eqn:E; [|exact E].
    destruct (areDatesEqual d now); simpl; [exact E|].
    apply setSelectedDate_selectedDate.
  - unfold clearClick.
    destruct (selectedDate st) eqn:E; [|exact E].
    apply setSelectedDate_selectedDate.
  - apply setSelectedDate_selectedDate.
  - now destruct (displayedImages st !! index).
  - reflexivity.
  - unfold handlePreviousImage.
    destruct (selectedImage st); [|reflexivity].
    destruct (0 <? _); [|reflexivity].
    now destruct (currentImages st !! _).
  - unfold handleNextImage.
    destruct (selectedImage st); [|reflexivity].
    destruct (_ <? _); [|reflexivity].
    now destruct (currentImages st !! _).
Qed.

Lemma run_all_dates (events : list Event) (st : AppState) :
  selectedDate (run st events) = None ->
  selectedDate st = None \/ In (DatePicked None) events.
Proof.
  revert st. unfold run.
  induction events as [|e events IH]; intros st; simpl; [auto|].
  intros H. destruct (IH _ H) as [Hs|Hin]; [|auto].
  rewrite step_selectedDate in Hs.
  destruct e as [fuel| |now|now|now|date|index| | |]; auto.
  - destruct (selectedDate st); discriminate.
  - destruct (selectedDate st) as [d|]; [|auto].
    destruct (areDatesEqual d now); discriminate.
  - destruct (selectedDate st) as [d|]; [discriminate|auto].
  - subst date. auto.
Qed.

Lemma slice_In {A : Type} (a b : nat) (l : list A) (x : A) :
  In x (slice a b l) -> In x l.
Proof.
  unfold slice. rewrite <- !list_elem_of_In. intros H.
  eapply subseteq_drop, subseteq_take, H.
Qed.

(** C6.  A change of the selected date runs the date effect.  The
    effect first puts the page cursor at 1 and empties the images, the
    displayed images and the metadata cache; after it the page cursor
    is 1 and the displayed images and the cache are what the first page
    of the new filter gives from an empty cache, whatever was displayed
    or cached before.  The object listing and the dates computed from
    it are not touched. *)
Theorem date_change_resets (v : option Date) (st : AppState) :
  selectedDate st <> v ->
  let reset := dateEffectReset (writeSelectedDate v st) in
  let st' := setSelectedDate v st in
  (page reset = 1%nat /\ metadataCache reset = ∅ /\
   displayedImages reset = [] /\ images reset = [] /\
   objects reset = objects st /\ uniqueDates reset = uniqueDates st) /\
  st' = (if (0 <? length (objects st))%nat
         then fetchInitialImages reset else reset) /\
  page st' = 1%nat /\ selectedDate st' = v /\
  objects st' = objects st /\ uniqueDates st' = uniqueDates st /\
  (displayedImages st', metadataCache st') =
    (if (0 <? length (objects st))%nat
     then
       let '(cache', _, newImages) :=
         fetchMetadata (slice 0 batchSize (objectsToDisplay v (objects st))) ∅ in
       (newImages, cache')
     else ([], ∅)).
Proof.
  intros Hchange reset st'.
  assert (st' = dateEffect (writeSelectedDate v st)) as ->.
  { apply setSelectedDate_run.
    destruct (selectedDate st), v; auto; left; discriminate. }
  split; [repeat split; reflexivity|].
  split; [reflexivity|].
  destruct (dateEffect_frame (writeSelectedDate v st))
    as (Ho & Hd & Hu & Hp & _).
  split; [exact Hp|]. split; [exact Hd|]. split; [exact Ho|].
  split; [exact Hu|].
  destruct (dateEffect_result (writeSelectedDate v st))
    as [(He & _ & -> & -> & _) | (Hne & R)].
  - simpl in He. simpl. now rewrite He.
  - simpl in Hne, R. simpl.
    destruct (objects st); [congruence|]. simpl.
    destruct (fetchMetadata _ ∅) as [[cache' w] imgs].
    destruct R as (_ & -> & -> & _). reflexivity.
Qed.

(** C10.  The component starts with the current day selected, and
    the first page it displays holds only images modified on that local
    day.  The Clear button selects the current day again.  The selected
    date is never absent in a reachable state unless the date picker
    handed over no date. *)
Theorem today_is_the_default (now : Date) :
  selectedDate (initialState now) = Some now /\
  (forall fuel,
      Forall (fun image => sameLocalDay (newDate (Image.lastModified image)) now)
        (displayedImages (step (initialState now) (ListingSettled fuel)))) /\
  (forall st now',
      selectedDate (step st (ClearClick now')) =
      match selectedDate st with
      | Some _ => Some now'
      | None => None
      end) /\
  (forall events,
      selectedDate (run (initialState now) events) = None ->
      In (DatePicked None) events).
Proof.
  split; [reflexivity|]. split; [|split].
  - intros fuel. simpl. unfold fetchObjects.
    destruct (fetchObjectsTry fuel) as [[[objs dates]|message]|];
      [|constructor|constructor].
    match goal with |- Forall _ (displayedImages (dateEffect ?s)) =>
      destruct (dateEffect_result s) as [(_ & _ & -> & _) | (_ & R)];
      [constructor|]
    end.
    simpl in R.
    pose proof (fetchMetadata_preserves
      (fun image => sameLocalDay (newDate (Image.lastModified image)) now)
      (slice 0 batchSize (objectsToDisplay (Some now) objs)) ∅) as P.
    destruct (fetchMetadata _ ∅) as [[cache' w] imgs].
    destruct R as (_ & -> & _). apply P.
    + intros k img Hk. rewrite lookup_empty in Hk. discriminate.
    + intros obj response Hin _ _ size _. simpl.
      apply slice_In in Hin. simpl in Hin.
      apply List.filter_In in Hin as (_ & Hday).
      rewrite areDatesEqual_normalize_r in Hday.
      now apply areDatesEqual_spec.
  - intros st now'. apply (step_selectedDate st (ClearClick now')).
  - intros events H. destruct (run_all_dates events _ H) as [Hs|Hin];
      [discriminate|exact Hin].
Qed.

(** *** Order of the gallery *)

(** The time value of the modification date of a record. *)
Definition timeOf (obj : ObjectInfo.t) : number :=
  getTime (newDate (ObjectInfo.lastModified obj)).


Definition validTime (obj : ObjectInfo.t) : Prop := timeOf obj <> NaN.




Lemma sort_insert_Permutation {A : Type} (cmp : A -> A -> number) (x : A)
  (l : list A) : Permutation (sort_insert cmp x l) (x :: l).
Proof.
  induction l as [|y l IH]; cbn [sort_insert]; [reflexivity|].
  destruct (num_gt (cmp x y) (Num 0)); [|reflexivity].
  rewrite IH. apply perm_swap.
Qed.

Lemma sort_Permutation {A : Type} (cmp : A -> A -> number) (l : list A) :
  Permutation (sort cmp l) l.
Proof.
  induction l as [|x l IH]; simpl; [reflexivity|].
  rewrite sort_insert_Permutation. now constructor.
Qed.

Lemma Forall_Permutation {A : Type} (P : A -> Prop) (l l' : list A) :
  Permutation l l' -> Forall P l -> Forall P l'.
Proof.
  intros Hp. rewrite !List.Forall_forall. intros H x Hin.
  apply H. eapply Permutation_in; [symmetry; exact Hp|exact Hin].
Qed.





Lemma mapC_Normal {A B : Type} (f : A -> Completion B) (l : list A)
  (ys : list B) :
  mapC f l = Normal ys -> Forall (fun x => exists y, f x = Normal y) l.
Proof.
  revert ys. induction l as [|x l IH]; intros ys; simpl; [constructor|].
  destruct (f x) as [y|] eqn:E; simpl; [|discriminate].
  destruct (mapC f l) as [ys'|]; simpl; [|discriminate].
  intros _. constructor; eauto.
Qed.

Lemma computeDates_valid (l : list ObjectInfo.t) (dates : list Date) :
  computeDates l = Normal dates -> Forall validTime l.
Proof.
  unfold computeDates.
  destruct (mapC _ l) as [ts|] eqn:E; simpl; [|discriminate].
  intros _. apply mapC_Normal in E.
  eapply Forall_impl; [exact E|].
  intros obj (t & Ht). unfold validTime, timeOf.
  unfold toISOString, normalizeDate, setHours0 in Ht.
  destruct (getTime (newDate _)); [discriminate|discriminate].
Qed.

Lemma toObject_mk (obj : ObjectInfo.t) (size : number) (type : string) :
  toObject (Image.mk (ObjectInfo.key obj) (ObjectInfo.lastModified obj) size type)
  = obj.
Proof. now destruct obj. Qed.

Lemma List_filter_sublist {A : Type} (p : A -> bool) (l : list A) :
  List.filter p l `sublist_of` l.
Proof.
  induction l as [|x l IH]; simpl; [constructor|].
  destruct (p x); now constructor.
Qed.

Lemma map_sublist {A B : Type} (f : A -> B) (l1 l2 : list A) :
  l1 `sublist_of` l2 -> map f l1 `sublist_of` map f l2.
Proof. induction 1; simpl; now constructor. Qed.

Lemma sublist_In {A : Type} (l1 l2 : list A) (x : A) :
  l1 `sublist_of` l2 -> In x l1 -> In x l2.
Proof.
  intros Hs Hin. apply list_elem_of_In. apply list_elem_of_In in Hin.
  eapply sublist_subseteq; eauto.
Qed.



Lemma objectsToDisplay_sublist (d : option Date) (l : list ObjectInfo.t) :
  objectsToDisplay d l `sublist_of` l.
Proof.
  destruct d; simpl; [apply List_filter_sublist|reflexivity].
Qed.

Lemma slice_take {A : Type} (p n : nat) (l : list A) :
  slice (p * n) ((p + 1) * n) l = take n (drop (p * n) l).
Proof. unfold slice. f_equal. lia. Qed.

(** On a batch of distinct keys none of which is cached, every image
    returned is the enriched record itself, and the cache grows by keys
    of the batch only. *)
Lemma fetchMetadata_fresh (objectsToFetch : list ObjectInfo.t)
  (cache : gmap string Image.t) :
  NoDup (map ObjectInfo.key objectsToFetch) ->
  (forall obj, In obj objectsToFetch -> cache !! ObjectInfo.key obj = None) ->
  let '(cache', w, newImages) := fetchMetadata objectsToFetch cache in
  map toObject newImages `sublist_of` objectsToFetch /\
  (forall k, is_Some (cache' !! k) ->
             is_Some (cache !! k) \/ In k (map ObjectInfo.key objectsToFetch)).
Proof.
  revert cache.
  induction objectsToFetch as [|obj rest IH]; intros cache Hnd Hc; simpl.
  - split; [constructor|auto].
  - simpl in Hnd. apply NoDup_cons in Hnd as (Hnotin & Hnd).
    rewrite list_elem_of_In in Hnotin.
    destruct (fetchMetadataTask cache obj) as [[cache1 w1] r] eqn:E1.
    assert ((cache1 = cache /\ r = None) \/
            (exists image, cache1 = <[ObjectInfo.key obj := image]> cache /\
               r = Some image /\ toObject image = obj)) as Hcase.
    { destruct (fetchMetadataTask_cases cache obj)
        as [(c & Ec & _) | [(_ & _ & E' & _) | [(_ & _ & _ & E' & _) |
            (_ & _ & _ & _ & response & _ & _ & E')]]].
      - rewrite Hc in Ec by now left. discriminate.
      - rewrite E' in E1. injection E1 as <- <- <-. auto.
      - rewrite E' in E1. injection E1 as <- <- <-. auto.
      - rewrite E' in E1. injection E1 as <- <- <-. right.
        eexists. split; [reflexivity|]. split; [reflexivity|].
        apply toObject_mk. }
    assert (forall o, In o rest -> cache1 !! ObjectInfo.key o = None) as Hc1.
    { intros o Hin.
      destruct Hcase as [(-> & _) | (image & -> & _)]; [apply Hc; now right|].
      rewrite lookup_insert_ne; [apply Hc; now right|].
      intros Ek. apply Hnotin. rewrite Ek. now apply in_map. }
    specialize (IH cache1 Hnd Hc1).
    destruct (fetchMetadata rest cache1) as [[cache2 w2] imgs].
    destruct IH as (IHs & IHc). split.
    + destruct Hcase as [(_ & ->) | (image & _ & -> & Himg)]; simpl.
      * now constructor.
      * rewrite Himg. now constructor.
    + intros k Hk. destruct (IHc k Hk) as [H1|Hin]; [|right; now right].
      destruct Hcase as [(-> & _) | (image & -> & _)]; [now left|].
      rewrite lookup_insert in H1. case_decide as Ek; [|now left].
      right. left. exact Ek.
Qed.


(** A date effect and the page loads that follow it, each run to its
    end before the next one starts, leave the listing and the selected
    date alone and move the page counter on by at most one each. *)
Lemma pages_frame (n : nat) (st : AppState) :
  let st' := Nat.iter n loadMoreImages (dateEffect st) in
  objects st' = objects st /\ selectedDate st' = selectedDate st /\
  (1 <= page st' <= n + 1)%nat.
Proof.
  clear parseFromString origin.
  cbv zeta. induction n as [|n IH];
    [change (Nat.iter 0 loadMoreImages (dateEffect st)) with (dateEffect st)
    |change (Nat.iter (S n) loadMoreImages (dateEffect st))
       with (loadMoreImages (Nat.iter n loadMoreImages (dateEffect st)))].
  - destruct (dateEffect_frame st) as (Ho & Hd & _ & Hp & _).
    rewrite Ho, Hd, Hp. split; [reflexivity|]. split; [reflexivity|lia].
  - destruct IH as (Ho & Hd & Hp).
    set (st1 := Nat.iter n loadMoreImages (dateEffect st)) in *.
    destruct (hasMore st1) eqn:Hm;
      [|rewrite loadMoreImages_idle by auto; split; [exact Ho|split; [exact Hd|lia]]].
    destruct (loading st1) eqn:Hl;
      [rewrite loadMoreImages_idle by auto; split; [exact Ho|split; [exact Hd|lia]]|].
    destruct (loadMoreImages_frame st1 Hm Hl) as (Ho' & Hd' & _ & Hp' & _).
    rewrite Ho', Hd', Hp', Ho, Hd. split; [reflexivity|]. split; [reflexivity|lia].
Qed.

(** What a date effect and the page loads after it build when no key
    is listed twice: the images are, as records, a sublist of the pages
    shown so far, and the cache holds keys of those pages only. *)
Definition Window (st : AppState) : Prop :=
  let shown :=
    take (page st * batchSize) (objectsToDisplay (selectedDate st) (objects st)) in
  NoDup (map ObjectInfo.key (objects st)) /\
  map toObject (images st) `sublist_of` shown /\
  (forall k, is_Some (metadataCache st !! k) -> In k (map ObjectInfo.key shown)) /\
  displayedImages st = images st.

Lemma dateEffect_window (st : AppState) :
  NoDup (map ObjectInfo.key (objects st)) -> Window (dateEffect st).
Proof.
  intros Hnd. unfold Window.
  destruct (dateEffect_frame st) as (Ho & Hd & _ & Hp & _ & _ & _ & Hid).
  rewrite Ho, Hd, Hp.
  split; [exact Hnd|].
  destruct (dateEffect_result st)
    as [(_ & Hi & Hdi & Hc & _) | (_ & R)].
  - rewrite Hi, Hc. split; [apply sublist_nil_l|].
    split; [|auto].
    intros k [x Hk]. rewrite lookup_empty in Hk. discriminate.
  - set (otd := objectsToDisplay (selectedDate st) (objects st)) in *.
    pose proof (fetchMetadata_fresh (slice 0 batchSize otd) ∅) as F.
    destruct (fetchMetadata _ ∅) as [[cache' w] imgs].
    destruct R as (Hi & Hdi & Hc & _).
    assert (slice 0 batchSize otd = take (1 * batchSize) otd) as Hslice
      by reflexivity.
    rewrite Hslice in F.
    destruct F as (Fs & Fc).
    { eapply sublist_NoDup; [exact Hnd|].
      apply map_sublist. etransitivity; [apply sublist_take|].
      apply objectsToDisplay_sublist. }
    { intros obj _. apply lookup_empty. }
    rewrite Hi, Hc. split; [exact Fs|]. split; [|auto].
    intros k Hk. destruct (Fc k Hk) as [[x Hx]|Hin]; [|exact Hin].
    rewrite lookup_empty in Hx. discriminate.
Qed.

Lemma loadMoreImages_window (st : AppState) :
  Window st -> Window (loadMoreImages st).
Proof.
  intros Hst.
  destruct (hasMore st) eqn:Hm; [|now rewrite loadMoreImages_idle by auto].
  destruct (loading st) eqn:Hl; [now rewrite loadMoreImages_idle by auto|].
  destruct Hst as (Hnd & Hi & Hc & Hd).
  destruct (loadMoreImages_frame st Hm Hl) as (Ho' & Hd' & _ & Hp' & _).
  pose proof (loadMoreImages_result st Hm Hl) as R. simpl in R.
  unfold Window. rewrite Ho', Hd', Hp'.
  set (otd := objectsToDisplay (selectedDate st) (objects st)) in *.
  rewrite slice_take in R.
  pose proof (fetchMetadata_fresh (take batchSize (drop (page st * batchSize) otd))
                (metadataCache st)) as F.
  destruct (fetchMetadata _ (metadataCache st)) as [[cache' w] imgs].
  destruct R as (Ri & Rd & Rc & _).
  assert (NoDup (map ObjectInfo.key otd)) as Hotd.
  { eapply sublist_NoDup; [exact Hnd|].
    apply map_sublist, objectsToDisplay_sublist. }
  assert (take ((page st + 1) * batchSize) otd
          = take (page st * batchSize) otd
            ++ take batchSize (drop (page st * batchSize) otd)) as Htake.
  { rewrite take_take_drop. f_equal. lia. }
  destruct F as (Fs & Fc).
  { eapply sublist_NoDup; [exact Hotd|].
    apply map_sublist. etransitivity; [apply sublist_take|apply sublist_drop]. }
  { intros obj Hin. destruct (metadataCache st !! ObjectInfo.key obj) eqn:E;
      [exfalso|reflexivity].
    assert (In (ObjectInfo.key obj) (map ObjectInfo.key (take (page st * batchSize) otd)))
      as Hleft by (apply Hc; eauto).
    assert (In (ObjectInfo.key obj) (map ObjectInfo.key (drop (page st * batchSize) otd)))
      as Hright.
    { apply in_map. eapply sublist_In; [apply sublist_take|exact Hin]. }
    rewrite <- (take_drop (page st * batchSize) otd), map_app in Hotd.
    apply NoDup_app in Hotd as (_ & Hdisj & _).
    apply (Hdisj (ObjectInfo.key obj)); now apply list_elem_of_In. }
  rewrite Ri, Rd, Rc, Hd, Htake, map_app.
  split; [exact Hnd|].
  split; [now apply sublist_app|]. split; [|auto].
  intros k Hk. rewrite map_app, in_app_iff.
  destruct (Fc k Hk); auto.
Qed.

Lemma pages_window (n : nat) (st : AppState) :
  NoDup (map ObjectInfo.key (objects st)) ->
  Window (Nat.iter n loadMoreImages (dateEffect st)).
Proof.
  intros Hnd. induction n as [|n IH];
    [change (Nat.iter 0 loadMoreImages (dateEffect st)) with (dateEffect st)
    |change (Nat.iter (S n) loadMoreImages (dateEffect st))
       with (loadMoreImages (Nat.iter n loadMoreImages (dateEffect st)))].
  - now apply dateEffect_window.
  - now apply loadMoreImages_window.
Qed.

Lemma pages_listed (n : nat) (st : AppState) :
  NoDup (map ObjectInfo.key (objects st)) ->
  let st' := Nat.iter n loadMoreImages (dateEffect st) in
  map toObject (images st') `sublist_of` objects st /\
  displayedImages st' = images st'.
Proof.
  intros Hnd st'.
  destruct (pages_window n st Hnd) as (_ & Hi & _ & Hd). fold st' in Hi, Hd.
  destruct (pages_frame n st) as (Ho & _). fold st' in Ho.
  split; [|exact Hd]. rewrite <- Ho.
  etransitivity; [exact Hi|].
  etransitivity; [apply sublist_take|apply objectsToDisplay_sublist].
Qed.

Lemma fetchObjectsTry_Normal (fuel : nat) (objs : list ObjectInfo.t)
  (dates : list Date) :
  fetchObjectsTry fuel = Some (Normal (objs, dates)) ->
  exists objectList,
    listingLoop fuel None [] = Some (Normal objectList) /\
    objs = filterAndSort objectList /\ computeDates objs = Normal dates.
Proof.
  unfold fetchObjectsTry.
  destruct (listingLoop fuel None []) as [[objectList|m]|]; simpl;
    [|discriminate|discriminate].
  destruct (length objectList =? 0)%nat; [discriminate|].
  destruct (computeDates (filterAndSort objectList)) as [ds|] eqn:E; simpl;
    [|discriminate].
  intros [= <- <-]. eauto.
Qed.







(** ** Further properties of the component *)

(** *** Which keys are images *)

Lemma endsWith_spec (s p : string) :
  endsWith s p = true <-> exists pre, s = pre +:+ p.
Proof.
  clear. induction s as [|c s IH]; cbn [endsWith].
  - rewrite orb_false_r, String.eqb_eq. split.
    + intros <-. now exists "".
    + intros ([|c pre] & H); [exact H|discriminate].
  - rewrite orb_true_iff, String.eqb_eq, IH. split.
    + intros [<- | (pre & ->)]; [now exists ""|now exists (String c pre)].
    + intros ([|c' pre] & H); [now left|].
      injection H as <- ->. right. now exists pre.
Qed.

Lemma toLowerCase_app (a b : string) :
  toLowerCase (a +:+ b) = toLowerCase a +:+ toLowerCase b.
Proof. clear. induction a as [|c a IH]; simpl; [reflexivity|now rewrite IH]. Qed.

Lemma toLowerCase_split (s a b : string) :
  toLowerCase s = a +:+ b ->
  exists a' b', s = a' +:+ b' /\ toLowerCase a' = a /\ toLowerCase b' = b.
Proof.
  clear. revert s. induction a as [|c a IH]; intros s H.
  - exists "", s. auto.
  - destruct s as [|c' s]; [discriminate|]. simpl in H.
    injection H as Hc H. destruct (IH s H) as (a' & b' & -> & <- & <-).
    exists (String c' a'), b'. simpl. now rewrite Hc.
Qed.

Lemma lower_ascii_dot (c : ascii) : lower_ascii c = "."%char -> c = "."%char.
Proof.
  clear. destruct c as [[] [] [] [] [] [] [] []]; vm_compute; congruence.
Qed.

(** X1.  A key passes the extension test exactly when it ends with a
    dot and one of jpg, jpeg, png, gif, webp, in any mix of upper and
    lower case. *)
Theorem isImageKey_spec (key : string) :
  isImageKey key = true <->
  exists stem ext,
    key = stem +:+ "." +:+ ext /\
    In (toLowerCase ext) ["jpg"; "jpeg"; "png"; "gif"; "webp"].
Proof.
  clear. unfold isImageKey. rewrite existsb_exists. split.
  - intros (ext & Hin & H). apply endsWith_spec in H as (pre & H).
    apply toLowerCase_split in H as (stem & tail & -> & _ & Htail).
    destruct tail as [|c ext']; [discriminate|]. simpl in Htail.
    injection Htail as Hc Hext. apply lower_ascii_dot in Hc as ->.
    exists stem, ext'. split; [reflexivity|]. now rewrite Hext.
  - intros (stem & ext & -> & Hin). exists (toLowerCase ext). split; [exact Hin|].
    apply endsWith_spec. exists (toLowerCase stem).
    now rewrite !toLowerCase_app.
Qed.

(** *** The enricher and its cache *)

(** The probe of the record succeeds with a size that is not below the
    floor. *)
Definition enrichable (obj : ObjectInfo.t) : bool :=
  negb (probeFails obj) && negb (num_lt (probedSize obj) (Num minFileSize)).

(** Only records that can be enriched are cached. *)
Definition cacheSound (cache : gmap string Image.t) : Prop :=
  forall obj, is_Some (cache !! ObjectInfo.key obj) -> enrichable obj = true.

Lemma enrichable_key (o1 o2 : ObjectInfo.t) :
  ObjectInfo.key o1 = ObjectInfo.key o2 -> enrichable o1 = enrichable o2.
Proof.
  intros Hk. unfold enrichable, probeFails, probedSize, probeUrl. now rewrite Hk.
Qed.

Lemma fetchMetadata_batch (objectsToFetch : list ObjectInfo.t)
  (cache : gmap string Image.t) :
  cacheKeyed cache -> cacheSound cache ->
  let '(cache', w, newImages) := fetchMetadata objectsToFetch cache in
  map Image.key newImages
  = map ObjectInfo.key (List.filter enrichable objectsToFetch) /\
  cacheKeyed cache' /\ cacheSound cache' /\ cache ⊆ cache' /\
  Forall (fun image => cache' !! Image.key image = Some image) newImages.
Proof.
  revert cache.
  induction objectsToFetch as [|obj rest IH]; intros cache Hk Hs; simpl.
  - split; [reflexivity|]. split; [exact Hk|]. split; [exact Hs|].
    split; [reflexivity|constructor].
  - destruct (fetchMetadataTask cache obj) as [[cache1 w1] r] eqn:E1.
    assert (cacheKeyed cache1 /\ cacheSound cache1 /\ cache ⊆ cache1 /\
            match r with
            | Some image =>
                enrichable obj = true /\ Image.key image = ObjectInfo.key obj /\
                cache1 !! Image.key image = Some image
            | None => enrichable obj = false
            end) as (Hk1 & Hs1 & Hsub1 & Hr).
    { destruct (fetchMetadataTask_cases cache obj)
        as [(c & Ec & E') | [(Ec & Hf & E' & _) | [(Ec & Hf & Hlt & E' & _) |
            (Ec & Hf & Hlt & _ & response & _ & _ & E')]]];
        rewrite E' in E1; injection E1 as <- <- <-.
      - split; [exact Hk|]. split; [exact Hs|]. split; [reflexivity|].
        split; [apply Hs; rewrite Ec; eauto|].
        split; [now apply Hk|]. now rewrite (Hk _ _ Ec).
      - split; [exact Hk|]. split; [exact Hs|]. split; [reflexivity|].
        unfold enrichable. now rewrite Hf.
      - split; [exact Hk|]. split; [exact Hs|]. split; [reflexivity|].
        unfold enrichable. now rewrite Hf, Hlt.
      - assert (enrichable obj = true) as He
          by (unfold enrichable; now rewrite Hf, Hlt).
        split; [|split; [|split]].
        + intros k img. rewrite lookup_insert. case_decide as Ek.
          * intros [= <-]. exact Ek.
          * apply Hk.
        + intros o. rewrite lookup_insert. case_decide as Ek.
          * intros _. now rewrite <- (enrichable_key obj o Ek).
          * apply Hs.
        + now apply insert_subseteq.
        + split; [exact He|]. split; [reflexivity|]. simpl.
          apply lookup_insert_eq. }
    specialize (IH cache1 Hk1 Hs1).
    destruct (fetchMetadata rest cache1) as [[cache2 w2] imgs].
    destruct IH as (IHkeys & IHk & IHs & IHsub & IHin).
    split; [|split; [exact IHk|split; [exact IHs|split]]].
    + destruct r as [image|].
      * destruct Hr as (-> & Hkey & _). simpl. now rewrite Hkey, IHkeys.
      * rewrite Hr. exact IHkeys.
    + now transitivity cache1.
    + destruct r as [image|]; simpl; [|exact IHin].
      constructor; [|exact IHin].
      destruct Hr as (_ & _ & Hl). eapply lookup_weaken; eauto.
Qed.

(** X2.  When every record of a batch is cached, [fetchMetadata]
    answers from the cache alone: the images are the cached ones in the
    order of the batch, the cache is as before, nothing is written to the
    console, and the answer of the server does not matter. *)
Theorem fetchMetadata_all_cached (objectsToFetch : list ObjectInfo.t)
  (cache : gmap string Image.t) :
  (forall obj, In obj objectsToFetch -> is_Some (cache !! ObjectInfo.key obj)) ->
  fetchMetadata objectsToFetch cache
  = (cache, [], omap (fun obj => cache !! ObjectInfo.key obj) objectsToFetch).
Proof.
  induction objectsToFetch as [|obj rest IH]; intros Hc; [reflexivity|].
  cbn [fetchMetadata]. unfold fetchMetadataTask.
  destruct (Hc obj (or_introl eq_refl)) as [cached Ec].
  rewrite Ec, IH by (intros o Ho; apply Hc; now right).
  simpl. now rewrite Ec.
Qed.

(** X3.  For a batch in which no key occurs twice (its tasks then
    touch different entries of the cache, whatever their interleaving):
    the images that [fetchMetadata] returns are in the cache afterwards,
    each under its own key; enriching the same batch a second time gives
    the same images, now served from the cache, and leaves the cache as it
    is; the console is warned again for the records whose probe fails, and
    only for those. *)
Theorem fetchMetadata_again (objectsToFetch : list ObjectInfo.t)
  (cache : gmap string Image.t) :
  NoDup (map ObjectInfo.key objectsToFetch) ->
  cacheKeyed cache -> cacheSound cache ->
  let '(cache', w, newImages) := fetchMetadata objectsToFetch cache in
  cache ⊆ cache' /\
  Forall (fun image => cache' !! Image.key image = Some image) newImages /\
  fetchMetadata objectsToFetch cache'
  = (cache',
     flat_map (fun obj =>
                 if enrichable obj then [] else probeWarning ∅ obj)
       objectsToFetch,
     newImages).
Proof.
  revert cache.
  induction objectsToFetch as [|obj rest IH]; intros cache Hnd Hk Hs.
  - simpl. repeat split; auto.
  - simpl in Hnd. apply NoDup_cons in Hnd as (_ & Hnd).
    pose proof (fetchMetadata_batch (obj :: rest) cache Hk Hs) as B.
    cbn [fetchMetadata] in *.
    destruct (fetchMetadataTask cache obj) as [[cache1 w1] r] eqn:E1.
    destruct (cacheKeyed_after_task _ _ _ _ _ Hk E1) as (Hk1 & Hr & _).
    pose proof (fetchMetadata_batch [obj] cache Hk Hs) as B1.
    cbn [fetchMetadata] in B1. rewrite E1 in B1.
    destruct B1 as (_ & _ & Hs1 & Hsub1 & Hin1).
    specialize (IH cache1 Hnd Hk1 Hs1).
    pose proof (fetchMetadata_batch rest cache1 Hk1 Hs1) as B2.
    destruct (fetchMetadata rest cache1) as [[cache2 w2] imgs] eqn:E2.
    destruct B as (_ & Hk2 & Hs2 & Hsub & Hin).
    destruct IH as (Hsub2 & Hin2 & IH).
    split; [exact Hsub|]. split; [exact Hin|].
    cbn [flat_map]. unfold fetchMetadataTask at 1.
    destruct r as [image|].
    + destruct Hr as (Hkey & _).
      rewrite app_nil_r in Hin1. apply Forall_cons_1 in Hin1 as (Hl1 & _).
      rewrite Hkey in Hl1.
      rewrite (lookup_weaken _ _ _ _ Hl1 Hsub2), IH.
      assert (enrichable obj = true) as ->
        by (apply Hs2; rewrite (lookup_weaken _ _ _ _ Hl1 Hsub2); eauto).
      reflexivity.
    + assert (enrichable obj = false) as He.
      { destruct (fetchMetadataTask_cases cache obj)
          as [(c & _ & E') | [(_ & Hf & _) | [(_ & Hf & Hlt & _) |
              (_ & _ & _ & _ & response & _ & _ & E')]]].
        - rewrite E' in E1. discriminate.
        - unfold enrichable. now rewrite Hf.
        - unfold enrichable. now rewrite Hf, Hlt.
        - rewrite E' in E1. discriminate. }
      assert (cache2 !! ObjectInfo.key obj = None) as Hnone.
      { destruct (cache2 !! ObjectInfo.key obj) eqn:El; [|reflexivity].
        rewrite Hs2 in He by (rewrite El; eauto). discriminate. }
      rewrite Hnone, He.
      fold (probeUrl obj). unfold enrichable, probeFails, probedSize in He.
      unfold probeWarning. rewrite lookup_empty.
      destruct (fetch HEAD (probeUrl obj)) as [response|err].
      * destruct (ok response); simpl in *.
        -- apply negb_false_iff in He. rewrite He, IH. reflexivity.
        -- rewrite IH. reflexivity.
      * rewrite IH. reflexivity.
Qed.

(** *** What every reachable state satisfies *)

(** The part of the state that the listing decides. *)
Record Settled (st : AppState) : Prop := mkSettled {
  st_keys : Forall (fun obj => isImageKey (ObjectInfo.key obj) = true) (objects st);
  st_selected :
    forall image, selectedImage st = Some image -> In (toObject image) (objects st);
  st_error : error st <> None -> objects st = [];
  st_pending : listingPending st = true -> objects st = [] /\ error st = None;
  st_dates : computeDates (objects st) = Normal (uniqueDates st)
}.

(** The part of the state that the pager builds. *)
Record Paged (st : AppState) : Prop := mkPaged {
  pg_displayed : displayedImages st = images st;
  pg_keyed : cacheKeyed (metadataCache st);
  pg_sound : cacheSound (metadataCache st);
  pg_keys :
    map Image.key (images st)
    = map ObjectInfo.key
        (List.filter enrichable
           (take (page st * batchSize)
              (objectsToDisplay (selectedDate st) (objects st))));
  pg_images :
    Forall (fun image =>
              In (toObject image) (objectsToDisplay (selectedDate st) (objects st)))
      (images st);
  pg_cache :
    forall k image,
      metadataCache st !! k = Some image ->
      In (toObject image) (objectsToDisplay (selectedDate st) (objects st));
  pg_hasMore :
    hasMore st = false ->
    (length (objectsToDisplay (selectedDate st) (objects st))
     <= page st * batchSize)%nat;
  pg_page : (1 <= page st)%nat
}.

Lemma Settled_ext (st st' : AppState) :
  objects st' = objects st -> selectedImage st' = selectedImage st ->
  error st' = error st -> listingPending st' = listingPending st ->
  uniqueDates st' = uniqueDates st -> Settled st -> Settled st'.
Proof.
  clear. intros Ho Hs He Hp Hu [H1 H2 H3 H4 H5].
  constructor; rewrite ?Ho, ?Hs, ?He, ?Hp, ?Hu; assumption.
Qed.

Lemma Paged_ext (st st' : AppState) :
  objects st' = objects st -> images st' = images st ->
  displayedImages st' = displayedImages st -> page st' = page st ->
  selectedDate st' = selectedDate st -> metadataCache st' = metadataCache st ->
  hasMore st' = hasMore st -> Paged st -> Paged st'.
Proof.
  clear parseFromString origin.
  intros Ho Hi Hd Hp Hs Hc Hm [H1 H2 H3 H4 H5 H6 H7 H8].
  constructor; rewrite ?Ho, ?Hi, ?Hd, ?Hp, ?Hs, ?Hc, ?Hm; assumption.
Qed.

Lemma objectsToDisplay_nil (d : option Date) : objectsToDisplay d [] = [].
Proof. now destruct d. Qed.

Lemma dateEffect_settled (st : AppState) : Settled st -> Settled (dateEffect st).
Proof.
  clear parseFromString origin.
  destruct (dateEffect_frame st) as (Ho & _ & Hu & _ & He & Hs & Hp & _).
  now apply Settled_ext.
Qed.

Lemma dateEffect_paged (st : AppState) : Paged (dateEffect st).
Proof.
  clear parseFromString origin.
  destruct (dateEffect_frame st) as (Ho & Hd & _ & Hp & _ & _ & _ & Hid).
  destruct (dateEffect_result st) as [(Hnil & Hi & Hdi & Hc & _) | (Hne & R)].
  - constructor.
    + now rewrite Hdi, Hi.
    + rewrite Hc. intros k img Hk. rewrite lookup_empty in Hk. discriminate.
    + rewrite Hc. intros obj [x Hx]. rewrite lookup_empty in Hx. discriminate.
    + rewrite Hi, Ho, Hnil, objectsToDisplay_nil, take_nil. reflexivity.
    + rewrite Hi. constructor.
    + rewrite Hc. intros k img Hk. rewrite lookup_empty in Hk. discriminate.
    + intros _. rewrite Ho, Hnil, objectsToDisplay_nil. simpl. lia.
    + rewrite Hp. lia.
  - set (otd := objectsToDisplay (selectedDate st) (objects st)) in *.
    pose proof (fetchMetadata_batch (slice 0 batchSize otd) ∅) as B.
    pose proof (fetchMetadata_preserves
                  (fun image => In (toObject image) otd)
                  (slice 0 batchSize otd) ∅) as P.
    destruct (fetchMetadata _ ∅) as [[cache' w] imgs].
    destruct R as (Hi & Hdi & Hc & _).
    destruct B as (Bk & Bkeyed & Bsound & _ & _).
    { intros k img Hk. rewrite lookup_empty in Hk. discriminate. }
    { intros obj [x Hx]. rewrite lookup_empty in Hx. discriminate. }
    destruct P as (Pi & Pc).
    { intros k img Hk. rewrite lookup_empty in Hk. discriminate. }
    { intros obj response Hin _ _ size _. rewrite toObject_mk.
      eapply slice_In, Hin. }
    destruct (dateEffect_loaded st Hne) as (_ & Hm).
    constructor; rewrite ?Ho, ?Hd, ?Hp, ?Hi, ?Hdi, ?Hc; fold otd.
    + reflexivity.
    + exact Bkeyed.
    + exact Bsound.
    + exact Bk.
    + exact Pi.
    + exact Pc.
    + intros Hf. rewrite Hm in Hf. apply Nat.ltb_ge in Hf. fold otd in Hf. lia.
    + lia.
Qed.

Lemma loadMoreImages_settled (st : AppState) :
  Settled st -> Settled (loadMoreImages st).
Proof.
  clear parseFromString origin.
  destruct (hasMore st) eqn:Hm; [|now rewrite loadMoreImages_idle by auto].
  destruct (loading st) eqn:Hl; [now rewrite loadMoreImages_idle by auto|].
  destruct (loadMoreImages_frame st Hm Hl)
    as (Ho & _ & Hu & _ & _ & He & Hs & Hp & _).
  now apply Settled_ext.
Qed.

Lemma loadMoreImages_paged (st : AppState) :
  Paged st -> Paged (loadMoreImages st).
Proof.
  clear parseFromString origin.
  intros Hst.
  destruct (hasMore st) eqn:Hm; [|now rewrite loadMoreImages_idle by auto].
  destruct (loading st) eqn:Hl; [now rewrite loadMoreImages_idle by auto|].
  destruct Hst as [Hdisp Hkeyed Hsound Hkeys Himgs Hcache _ Hpage].
  destruct (loadMoreImages_frame st Hm Hl)
    as (Ho & Hd & _ & Hp & _ & _ & _ & _ & Hm').
  pose proof (loadMoreImages_result st Hm Hl) as R. simpl in R.
  set (otd := objectsToDisplay (selectedDate st) (objects st)) in *.
  rewrite slice_take in R.
  set (batch := take batchSize (drop (page st * batchSize) otd)) in *.
  pose proof (fetchMetadata_batch batch (metadataCache st) Hkeyed Hsound) as B.
  pose proof (fetchMetadata_preserves
                (fun image => In (toObject image) otd) batch (metadataCache st))
    as P.
  destruct (fetchMetadata batch (metadataCache st)) as [[cache' w] imgs].
  destruct R as (Ri & Rd & Rc & _).
  destruct B as (Bk & Bkeyed & Bsound & _ & _).
  destruct P as (Pi & Pc); [exact Hcache| |].
  { intros obj response Hin _ _ size _. rewrite toObject_mk.
    eapply sublist_In; [|exact Hin].
    etransitivity; [apply sublist_take|apply sublist_drop]. }
  constructor; rewrite ?Ho, ?Hd, ?Hp, ?Ri, ?Rd, ?Rc; fold otd.
  - now rewrite Hdisp.
  - exact Bkeyed.
  - exact Bsound.
  - replace ((page st + 1) * batchSize)%nat
      with (page st * batchSize + batchSize)%nat by lia.
    rewrite <- take_take_drop, List.filter_app, !map_app, Hkeys, Bk.
    reflexivity.
  - apply Forall_app. auto.
  - exact Pc.
  - intros Hf. rewrite Hm' in Hf. apply Nat.ltb_ge in Hf. exact Hf.
  - lia.
Qed.

Lemma setSelectedDate_coherent (v : option Date) (st : AppState) :
  Settled st /\ Paged st ->
  Settled (setSelectedDate v st) /\ Paged (setSelectedDate v st).
Proof.
  clear parseFromString origin.
  intros (Hs & Hp).
  assert (Settled (dateEffect (writeSelectedDate v st)) /\
          Paged (dateEffect (writeSelectedDate v st))) as H.
  { split; [|apply dateEffect_paged].
    apply dateEffect_settled. revert Hs. now apply Settled_ext. }
  unfold setSelectedDate. destruct (selectedDate st), v; auto.
Qed.

Lemma select_coherent (image : Image.t) (w : list ConsoleEntry) (st : AppState) :
  In image (images st) -> Settled st /\ Paged st ->
  Settled (setSelectedImage (Some image) (writeConsole w st)) /\
  Paged (setSelectedImage (Some image) (writeConsole w st)).
Proof.
  clear parseFromString origin.
  intros Hin ([H1 H2 H3 H4 H5] & Hp). split.
  - constructor; simpl; auto.
    intros img [= <-].
    eapply sublist_In; [apply objectsToDisplay_sublist|].
    pose proof (pg_images _ Hp) as Hi. rewrite List.Forall_forall in Hi.
    now apply Hi.
  - revert Hp. now apply Paged_ext.
Qed.

Lemma setSelectedImage_id (image : Image.t) (st : AppState) :
  setSelectedImage (Some image) st
  = setSelectedImage (Some image) (writeConsole [] st).
Proof.
  clear. destruct st. unfold setSelectedImage, writeConsole. simpl.
  now rewrite app_nil_r.
Qed.

Lemma step_coherent (st : AppState) (e : Event) :
  Settled st /\ Paged st -> Settled (step st e) /\ Paged (step st e).
Proof.
  intros Hst. destruct e as [fuel| |now|now|now|date|index| | |]; simpl.
  - destruct (listingPending st) eqn:Epend; [|exact Hst].
    destruct Hst as (Hs & Hp).
    destruct (st_pending _ Hs Epend) as (Hnil & Herr).
    unfold fetchObjects.
    destruct (fetchObjectsTry fuel) as [[[objs dates]|message]|] eqn:E;
      [| |now split].
    + apply fetchObjectsTry_Normal in E as (objectList & Hloop & Hobjs & Hdates).
      split; [|apply dateEffect_paged].
      apply dateEffect_settled. constructor; simpl.
      * subst objs. unfold filterAndSort.
        eapply Forall_Permutation; [symmetry; apply sort_Permutation|].
        apply List.Forall_forall. intros obj Hin.
        now apply List.filter_In in Hin.
      * intros image Hsel. apply (st_selected _ Hs) in Hsel.
        rewrite Hnil in Hsel. destruct Hsel.
      * intros Hne. congruence.
      * discriminate.
      * exact Hdates.
    + split.
      * destruct Hs as [H1 H2 H3 H4 H5]. constructor; simpl; auto.
        discriminate.
      * revert Hp. now apply Paged_ext.
  - destruct Hst as (Hs & Hp).
    split; [now apply loadMoreImages_settled|now apply loadMoreImages_paged].
  - unfold handlePreviousDate.
    destruct (selectedDate st); now apply setSelectedDate_coherent.
  - destruct (hasNextDate _ now); [|exact Hst]. unfold handleNextDate.
    destruct (selectedDate st); [now apply setSelectedDate_coherent|exact Hst].
  - unfold clearClick.
    destruct (selectedDate st); [now apply setSelectedDate_coherent|exact Hst].
  - now apply setSelectedDate_coherent.
  - destruct (displayedImages st !! index) as [image|] eqn:E; [|exact Hst].
    apply select_coherent; [|exact Hst].
    rewrite <- (pg_displayed _ (proj2 Hst)). eapply lookup_In, E.
  - destruct Hst as ([H1 H2 H3 H4 H5] & Hp). split.
    + constructor; simpl; auto. discriminate.
    + revert Hp. now apply Paged_ext.
  - unfold handlePreviousImage.
    destruct (selectedImage st); [|exact Hst].
    destruct (0 <? _); [|exact Hst].
    destruct (currentImages st !! _) as [image|] eqn:E; [|exact Hst].
    rewrite setSelectedImage_id. apply select_coherent; [|exact Hst].
    eapply currentImages_incl, lookup_In, E.
  - unfold handleNextImage.
    destruct (selectedImage st); [|exact Hst].
    destruct (_ <? _); [|exact Hst].
    destruct (currentImages st !! _) as [image|] eqn:E; [|exact Hst].
    rewrite setSelectedImage_id. apply select_coherent; [|exact Hst].
    eapply currentImages_incl, lookup_In, E.
Qed.

Lemma run_coherent (now : Date) (events : list Event) :
  Settled (run (initialState now) events) /\ Paged (run (initialState now) events).
Proof.
  apply (run_invariant (fun st => Settled st /\ Paged st));
    [exact step_coherent|].
  split; constructor; simpl.
  - constructor.
  - discriminate.
  - reflexivity.
  - auto.
  - reflexivity.
  - reflexivity.
  - intros k img Hk. rewrite lookup_empty in Hk. discriminate.
  - intros obj [x Hx]. rewrite lookup_empty in Hx. discriminate.
  - reflexivity.
  - constructor.
  - intros k img Hk. rewrite lookup_empty in Hk. discriminate.
  - intros _. lia.
  - lia.
Qed.

(** *** The pages on display *)

Lemma pages_paged (n : nat) (st : AppState) :
  Paged (Nat.iter n loadMoreImages (dateEffect st)).
Proof.
  clear parseFromString origin.
  induction n as [|n IH];
    [change (Nat.iter 0 loadMoreImages (dateEffect st)) with (dateEffect st)
    |change (Nat.iter (S n) loadMoreImages (dateEffect st))
       with (loadMoreImages (Nat.iter n loadMoreImages (dateEffect st)))].
  - apply dateEffect_paged.
  - now apply loadMoreImages_paged.
Qed.

(** X4.  From any state, once the date effect and [n] page loads have
    run, each to its end before the next one starts, the keys of the
    displayed images are, in order, the keys of the records that can be
    enriched among the first [page * 20] records of the filtered subset.
    So at most [page * 20] images are displayed, and the page counter is
    between 1 and [n + 1]. *)
Theorem displayed_pages_exact (st : AppState) (n : nat) :
  let st' := Nat.iter n loadMoreImages (dateEffect st) in
  map Image.key (displayedImages st')
  = map ObjectInfo.key
      (List.filter enrichable
         (take (page st' * 20) (filteredSubset (selectedDate st) (objects st)))) /\
  (length (displayedImages st') <= page st' * 20)%nat /\
  (1 <= page st' <= n + 1)%nat.
Proof.
  intros st'. pose proof (pages_paged n st) as Hp. fold st' in Hp.
  destruct (pages_frame n st) as (Ho & Hd & Hpage). fold st' in Ho, Hd, Hpage.
  rewrite <- objectsToDisplay_filteredSubset, <- Ho, <- Hd.
  assert (map Image.key (displayedImages st')
          = map ObjectInfo.key
              (List.filter enrichable
                 (take (page st' * 20)
                    (objectsToDisplay (selectedDate st') (objects st'))))) as Hk.
  { rewrite (pg_displayed _ Hp). apply (pg_keys _ Hp). }
  split; [exact Hk|]. split; [|exact Hpage].
  apply (f_equal (@length _)) in Hk. rewrite !length_map in Hk. rewrite Hk.
  etransitivity; [apply List.filter_length_le|].
  rewrite length_take. lia.
Qed.

(** X5.  From any state, once the date effect and [n] page loads have
    run, each to its end before the next one starts: when [hasMore] is
    then false, every record of the filtered subset that can be enriched
    is on display, in order, and nothing is left to load. *)
Theorem nothing_left_when_no_more (st : AppState) (n : nat) :
  hasMore (Nat.iter n loadMoreImages (dateEffect st)) = false ->
  let st' := Nat.iter n loadMoreImages (dateEffect st) in
  map Image.key (displayedImages st')
  = map ObjectInfo.key
      (List.filter enrichable (filteredSubset (selectedDate st) (objects st))).
Proof.
  intros Hm st'. pose proof (pages_paged n st) as Hp. fold st' in Hp, Hm.
  destruct (pages_frame n st) as (Ho & Hd & _). fold st' in Ho, Hd.
  rewrite <- objectsToDisplay_filteredSubset, <- Ho, <- Hd.
  rewrite (pg_displayed _ Hp), (pg_keys _ Hp).
  rewrite take_ge; [reflexivity|].
  apply (pg_hasMore _ Hp Hm).
Qed.

(** X6.  Every image that a reachable state holds on to (in the
    images, the displayed images, the metadata cache or the viewer) has
    the key and the modification date of an entry of the sorted listing,
    and so a key that passes the extension test. *)
Theorem retained_images_are_listed (now : Date) (events : list Event)
  (image : Image.t) :
  Retains (run (initialState now) events) image ->
  In (toObject image) (objects (run (initialState now) events)) /\
  isImageKey (Image.key image) = true.
Proof.
  intros Hret. destruct (run_coherent now events) as (Hs & Hp).
  set (st := run (initialState now) events) in *.
  assert (In (toObject image) (objects st)) as Hin.
  { pose proof (pg_images _ Hp) as Hi. rewrite List.Forall_forall in Hi.
    destruct Hret as [H|[H|[(k & H)|H]]].
    - eapply sublist_In; [apply objectsToDisplay_sublist|]. now apply Hi.
    - rewrite (pg_displayed _ Hp) in H.
      eapply sublist_In; [apply objectsToDisplay_sublist|]. now apply Hi.
    - eapply sublist_In; [apply objectsToDisplay_sublist|].
      eapply (pg_cache _ Hp), H.
    - now apply (st_selected _ Hs). }
  split; [exact Hin|].
  pose proof (st_keys _ Hs) as Hk. rewrite List.Forall_forall in Hk.
  apply (Hk _ Hin).
Qed.

Lemma filter_all {A : Type} (p : A -> bool) (l : list A) :
  Forall (fun x => p x = true) l -> List.filter p l = l.
Proof.
  clear. induction 1 as [|x l Hx _ IH]; simpl; [reflexivity|].
  now rewrite Hx, IH.
Qed.

(** X7.  From any state, once the date effect and [n] page loads have
    run, each to its end before the next one starts, all the images
    loaded fall on the selected day, so the date filter of the viewer and
    of the counter keeps them all: the list the viewer walks is the list
    of images, and the count shown is the number of images on display
    (not the number of records of that day in the bucket). *)
Theorem count_is_what_is_displayed (st : AppState) (n : nat) :
  let st' := Nat.iter n loadMoreImages (dateEffect st) in
  currentImages st' = images st' /\
  getImageCount st' = length (displayedImages st') /\
  (forall d image,
      selectedDate st = Some d -> In image (displayedImages st') ->
      sameLocalDay (newDate (Image.lastModified image)) d).
Proof.
  intros st'. pose proof (pages_paged n st) as Hp. fold st' in Hp.
  destruct (pages_frame n st) as (_ & Hsel & _). fold st' in Hsel.
  rewrite <- Hsel.
  assert (forall d, selectedDate st' = Some d ->
            Forall (fun image =>
                      areDatesEqual (newDate (Image.lastModified image))
                        (normalizeDate d) = true) (images st')) as Hday.
  { intros d Hd. pose proof (pg_images _ Hp) as Hi. rewrite Hd in Hi.
    eapply Forall_impl; [exact Hi|]. intros image Hin. simpl in Hin.
    now apply List.filter_In in Hin. }
  rewrite (pg_displayed _ Hp).
  unfold currentImages, getImageCount.
  destruct (selectedDate st') as [d|] eqn:Hd.
  - rewrite (filter_all _ _ (Hday d eq_refl)).
    split; [reflexivity|]. split; [reflexivity|].
    intros d' image [= <-] Hin. specialize (Hday d eq_refl).
    rewrite List.Forall_forall in Hday. specialize (Hday _ Hin).
    rewrite areDatesEqual_normalize_r in Hday. now apply areDatesEqual_spec.
  - split; [reflexivity|]. split; [reflexivity|]. discriminate.
Qed.

(** *** The listing settles once *)

Lemma setSelectedDate_listing (v : option Date) (st : AppState) :
  let st' := setSelectedDate v st in
  objects st' = objects st /\ uniqueDates st' = uniqueDates st /\
  error st' = error st /\ listingPending st' = listingPending st.
Proof.
  clear parseFromString origin.
  unfold setSelectedDate.
  destruct (dateEffect_frame (writeSelectedDate v st))
    as (Ho & _ & Hu & _ & He & _ & Hp & _).
  destruct (selectedDate st), v; simpl; auto.
Qed.

Lemma step_listing (st : AppState) (e : Event) :
  listingPending st = false ->
  let st' := step st e in
  objects st' = objects st /\ uniqueDates st' = uniqueDates st /\
  error st' = error st /\ listingPending st' = false.
Proof.
  intros Hpend. destruct e as [fuel| |now|now|now|date|index| | |]; simpl.
  - rewrite Hpend. auto.
  - destruct (hasMore st) eqn:Hm; [|rewrite loadMoreImages_idle; auto].
    destruct (loading st) eqn:Hl; [rewrite loadMoreImages_idle; auto|].
    destruct (loadMoreImages_frame st Hm Hl)
      as (Ho & _ & Hu & _ & _ & He & _ & Hp & _).
    rewrite Ho, Hu, He, Hp. auto.
  - unfold handlePreviousDate. rewrite <- Hpend.
    destruct (selectedDate st); apply setSelectedDate_listing.
  - destruct (hasNextDate _ now); [|auto]. unfold handleNextDate.
    destruct (selectedDate st); [|auto].
    rewrite <- Hpend. apply setSelectedDate_listing.
  - unfold clearClick. destruct (selectedDate st); [|auto].
    rewrite <- Hpend. apply setSelectedDate_listing.
  - rewrite <- Hpend. apply setSelectedDate_listing.
  - destruct (displayedImages st !! index); simpl; auto.
  - auto.
  - unfold handlePreviousImage. destruct (selectedImage st); [|auto].
    destruct (0 <? _); [|auto]. destruct (currentImages st !! _); simpl; auto.
  - unfold handleNextImage. destruct (selectedImage st); [|auto].
    destruct (_ <? _); [|auto]. destruct (currentImages st !! _); simpl; auto.
Qed.

(** X8.  Once the listing has settled, no event changes the object
    listing, the dates computed from it or the error: the bucket is
    listed once, and there is no retry. *)
Theorem listing_settles_once (st : AppState) (events : list Event) :
  listingPending st = false ->
  let st' := run st events in
  objects st' = objects st /\ uniqueDates st' = uniqueDates st /\
  error st' = error st /\ listingPending st' = false.
Proof.
  revert st. unfold run.
  induction events as [|e events IH]; intros st Hpend; simpl; [auto|].
  destruct (step_listing st e Hpend) as (Ho & Hu & He & Hp).
  destruct (IH _ Hp) as (Ho' & Hu' & He' & Hp').
  rewrite Ho', Hu', He', Ho, Hu, He. auto.
Qed.

Lemma run_error_kept (st : AppState) (events : list Event) :
  listingPending st = false -> error (run st events) = error st.
Proof.
  revert st. unfold run.
  induction events as [|e events IH]; intros st Hpend; simpl; [reflexivity|].
  destruct (step_listing st e Hpend) as (_ & _ & He & Hp).
  now rewrite (IH _ Hp).
Qed.

(** X9.  An error is final and comes with an empty gallery: when a
    reachable state shows an error, every later state shows the same
    error and has no object, no date, no image and nothing on display. *)
Theorem error_is_final (now : Date) (before after : list Event)
  (message : string) :
  error (run (initialState now) before) = Some message ->
  let st := run (initialState now) (before ++ after) in
  error st = Some message /\ objects st = [] /\ uniqueDates st = [] /\
  images st = [] /\ displayedImages st = [].
Proof.
  intros Herr st.
  destruct (run_coherent now before) as (Hs0 & _).
  destruct (run_coherent now (before ++ after)) as (Hs & Hp). fold st in Hs, Hp.
  assert (listingPending (run (initialState now) before) = false) as Hpend.
  { destruct (listingPending _) eqn:E; [|reflexivity].
    destruct (st_pending _ Hs0 E) as (_ & Hnone). congruence. }
  assert (st = run (run (initialState now) before) after) as Hst
    by apply fold_left_app.
  pose proof (run_error_kept _ after Hpend) as He.
  rewrite <- Hst in He. rewrite Herr in He.
  assert (objects st = []) as Ho by (apply (st_error _ Hs); congruence).
  pose proof (st_dates _ Hs) as Hd. rewrite Ho in Hd. injection Hd as Hd.
  pose proof (pg_keys _ Hp) as Hk.
  rewrite Ho, objectsToDisplay_nil, take_nil in Hk. simpl in Hk.
  apply map_eq_nil in Hk.
  rewrite (pg_displayed _ Hp). auto.
Qed.

(** *** The days that have images *)

Lemma Set_from_fold (l acc : list Z) :
  NoDup acc ->
  let r := fold_left
             (fun acc x => if existsb (Z.eqb x) acc then acc else acc ++ [x]) l acc in
  NoDup r /\ forall x, In x r <-> In x acc \/ In x l.
Proof.
  clear. revert acc. induction l as [|y l IH]; intros acc Hnd; simpl.
  - split; [exact Hnd|]. intros x. tauto.
  - destruct (existsb (Z.eqb y) acc) eqn:E.
    + destruct (IH acc Hnd) as (H1 & H2). split; [exact H1|].
      intros x. rewrite H2. apply existsb_exists in E as (z & Hz & Ezy).
      apply Z.eqb_eq in Ezy. subst z. intuition (subst; auto).
    + assert (~ In y acc) as Hy.
      { intros Hin. assert (existsb (Z.eqb y) acc = true) as E'
          by (apply existsb_exists; exists y; split; [exact Hin|apply Z.eqb_refl]).
        congruence. }
      destruct (IH (acc ++ [y])) as (H1 & H2).
      { apply NoDup_app. split; [exact Hnd|]. split; [|apply NoDup_singleton].
        intros x Hx Hx'. apply list_elem_of_singleton in Hx'. subst x.
        apply Hy. now apply list_elem_of_In. }
      split; [exact H1|]. intros x. rewrite H2, in_app_iff. simpl. tauto.
Qed.

Lemma Set_from_spec (l : list Z) :
  NoDup (Set_from l) /\ forall x, In x (Set_from l) <-> In x l.
Proof.
  clear. destruct (Set_from_fold l [] (NoDup_nil_2)) as (H1 & H2).
  split; [exact H1|]. intros x. rewrite (H2 x). simpl. tauto.
Qed.

Lemma mapC_Forall2 {A B : Type} (f : A -> Completion B) (l : list A)
  (ys : list B) :
  mapC f l = Normal ys -> Forall2 (fun x y => f x = Normal y) l ys.
Proof.
  clear. revert ys. induction l as [|x l IH]; intros ys; simpl.
  - intros [= <-]. constructor.
  - destruct (f x) as [y|] eqn:E; simpl; [|discriminate].
    destruct (mapC f l) as [ys'|]; simpl; [|discriminate].
    intros [= <-]. constructor; auto.
Qed.

(** The comparator of the dates: newest first. *)
Definition newestDateFirst (a b : Date) : number :=
  num_sub (getTime b) (getTime a).

Lemma sort_insert_dates (x : Date) (l : list Date) :
  getTime x <> NaN -> Forall (fun d => getTime d <> NaN) l ->
  StronglySorted (fun a b => num_ge (getTime a) (getTime b) = true) l ->
  StronglySorted (fun a b => num_ge (getTime a) (getTime b) = true)
    (sort_insert newestDateFirst x l).
Proof.
  clear. intros Hx Hl Hs. induction Hs as [|y l Hs IH Hy]; cbn [sort_insert].
  - repeat constructor.
  - apply Forall_cons_1 in Hl as (Hvy & Hl).
    unfold newestDateFirst at 1.
    destruct (getTime x) as [|tx] eqn:Ex; [congruence|].
    destruct (getTime y) as [|ty] eqn:Ey; [congruence|].
    rewrite <- Ey in Hy.
    simpl. destruct (Z.ltb_spec 0 (ty - tx)).
    + constructor; [now apply IH|].
      apply (Forall_Permutation _ (x :: l));
        [symmetry; apply sort_insert_Permutation|].
      constructor; [|exact Hy]. rewrite Ex, Ey. simpl. apply Z.leb_le. lia.
    + constructor; [now constructor|].
      constructor; [rewrite Ex, Ey; simpl; apply Z.leb_le; lia|].
      eapply Forall_impl; [exact Hy|]. intros z. rewrite Ex, Ey.
      destruct (getTime z); simpl; [discriminate|].
      rewrite !Z.leb_le. lia.
Qed.

Lemma sort_dates_sorted (l : list Date) :
  Forall (fun d => getTime d <> NaN) l ->
  StronglySorted (fun a b => num_ge (getTime a) (getTime b) = true)
    (sort newestDateFirst l).
Proof.
  clear. induction l as [|x l IH]; simpl; [constructor|].
  intros H. apply Forall_cons_1 in H as (Hx & Hl).
  apply sort_insert_dates; auto.
  apply (Forall_Permutation _ l); [symmetry; apply sort_Permutation|exact Hl].
Qed.

Lemma StronglySorted_strict (l : list Date) :
  NoDup l ->
  StronglySorted (fun a b => num_ge (getTime a) (getTime b) = true) l ->
  StronglySorted (fun a b => num_gt (getTime a) (getTime b) = true) l.
Proof.
  clear. induction 2 as [|x l Hs IH Hx]; [constructor|].
  apply NoDup_cons in H as (Hnotin & Hnd).
  constructor; [now apply IH|].
  rewrite List.Forall_forall in *. intros y Hy. specialize (Hx y Hy).
  destruct x as [[|tx]], y as [[|ty]]; simpl in *; try discriminate.
  apply Z.leb_le in Hx. apply Z.ltb_lt.
  destruct (Z.eq_dec tx ty) as [->|]; [|lia].
  exfalso. apply Hnotin. now apply list_elem_of_In.
Qed.

Lemma normalizeDate_midnight (d : Date) (t : Z) :
  getTime (normalizeDate d) = Num t -> t + tzOffset = msPerDay * localDay t.
Proof.
  clear Date_parse fetch parseFromString origin.
  unfold normalizeDate, setHours0, localDay.
  destruct (getTime d) as [|t0]; simpl; [discriminate|].
  intros [= <-].
  pose proof (Z.div_mod (t0 + tzOffset) msPerDay ltac:(discriminate)) as E.
  replace (t0 - (t0 + tzOffset) mod msPerDay + tzOffset)
    with ((t0 + tzOffset) / msPerDay * msPerDay) by lia.
  rewrite Z.div_mul by discriminate. lia.
Qed.

Lemma computeDates_spec (objs : list ObjectInfo.t) (dates : list Date) :
  computeDates objs = Normal dates ->
  StronglySorted (fun a b => num_gt (getTime a) (getTime b) = true) dates /\
  forall d, In d dates <->
            exists obj, In obj objs /\
                        d = normalizeDate (newDate (ObjectInfo.lastModified obj)).
Proof.
  clear fetch parseFromString origin.
  unfold computeDates.
  destruct (mapC _ objs) as [ts|] eqn:E; simpl; [|discriminate].
  intros [= <-]. fold newestDateFirst.
  apply mapC_Forall2 in E.
  destruct (Set_from_spec ts) as (Hnd & Hin).
  set (ds := map (fun t => mkDate (Num t)) (Set_from ts)).
  assert (NoDup ds) as Hnd'.
  { unfold ds.
    assert (Inj eq eq (fun t => mkDate (Num t))) as Hinj
      by (intros a b [= ->]; reflexivity).
    now apply (NoDup_fmap_2 (fun t => mkDate (Num t))). }
  assert (Forall (fun d => getTime d <> NaN) ds) as Hvalid.
  { unfold ds. apply List.Forall_forall. intros d Hd.
    apply in_map_iff in Hd as (t & <- & _). discriminate. }
  split.
  - apply StronglySorted_strict.
    + now rewrite (sort_Permutation newestDateFirst ds).
    + now apply sort_dates_sorted.
  - intros d.
    assert (In d (sort newestDateFirst ds) <-> In d ds) as ->.
    { split; apply Permutation_in;
        [apply sort_Permutation|symmetry; apply sort_Permutation]. }
    unfold ds. rewrite in_map_iff. split.
    + intros (t & <- & Ht). apply Hin in Ht.
      apply list_elem_of_In, list_elem_of_lookup in Ht as (i & Hi).
      destruct (Forall2_lookup_r _ _ _ _ _ E Hi) as (obj & Hobj & Hf).
      exists obj. split; [eapply lookup_In, Hobj|].
      unfold toISOString in Hf.
      destruct (normalizeDate (newDate (ObjectInfo.lastModified obj))) as [[|t']];
        simpl in Hf; [discriminate|]. now injection Hf as ->.
    + intros (obj & Hobj & ->).
      apply list_elem_of_In, list_elem_of_lookup in Hobj as (i & Hi).
      destruct (Forall2_lookup_l _ _ _ _ _ E Hi) as (t & Ht & Hf).
      exists t. split; [|apply Hin; eapply lookup_In, Ht].
      unfold toISOString in Hf.
      destruct (normalizeDate (newDate (ObjectInfo.lastModified obj))) as [[|t']];
        simpl in Hf; [discriminate|]. now injection Hf as ->.
Qed.

Lemma sameLocalDay_normalizeDate (d : Date) :
  getTime d <> NaN -> sameLocalDay d (normalizeDate d).
Proof.
  clear Date_parse fetch parseFromString origin.
  unfold sameLocalDay, normalizeDate, setHours0.
  destruct (getTime d) as [|t]; [congruence|]. intros _. simpl.
  eexists _, _. split; [reflexivity|]. split; [reflexivity|].
  symmetry. apply localDay_start.
Qed.

(** X10.  In every reachable state the dates to highlight are in
    strictly descending order, they are exactly the starts of the local
    days of the listed objects, no two of them fall on the same local
    day, and every listed object falls on the day of one of them. *)
Theorem unique_dates_are_the_days (now : Date) (events : list Event) :
  let st := run (initialState now) events in
  StronglySorted (fun a b => num_gt (getTime a) (getTime b) = true)
    (uniqueDates st) /\
  (forall d, In d (uniqueDates st) <->
             exists obj, In obj (objects st) /\
                         d = normalizeDate (newDate (ObjectInfo.lastModified obj))) /\
  (forall d1 d2, In d1 (uniqueDates st) -> In d2 (uniqueDates st) ->
                 sameLocalDay d1 d2 -> d1 = d2) /\
  (forall obj, In obj (objects st) ->
               exists d, In d (uniqueDates st) /\
                         sameLocalDay (newDate (ObjectInfo.lastModified obj)) d).
Proof.
  intros st. destruct (run_coherent now events) as (Hs & _). fold st in Hs.
  pose proof (st_dates _ Hs) as Hd.
  destruct (computeDates_spec _ _ Hd) as (Hsorted & Hin).
  split; [exact Hsorted|]. split; [exact Hin|]. split.
  - intros d1 d2 H1 H2 (t1 & t2 & E1 & E2 & Hday).
    apply Hin in H1 as (o1 & _ & Hd1). apply Hin in H2 as (o2 & _ & Hd2).
    rewrite Hd1 in E1. rewrite Hd2 in E2.
    pose proof (normalizeDate_midnight _ _ E1) as M1.
    pose proof (normalizeDate_midnight _ _ E2) as M2.
    assert (t1 = t2) as -> by (rewrite Hday in M1; lia).
    rewrite <- Hd1 in E1. rewrite <- Hd2 in E2.
    destruct d1 as [n1], d2 as [n2]. simpl in E1, E2. congruence.
  - intros obj Hobj.
    exists (normalizeDate (newDate (ObjectInfo.lastModified obj))).
    split; [apply Hin; eauto|].
    apply sameLocalDay_normalizeDate.
    pose proof (computeDates_valid _ _ Hd) as Hv.
    rewrite List.Forall_forall in Hv. apply (Hv _ Hobj).
Qed.

(** *** The listing requests *)

(** X11.  When the loop reaches a page that carries no continuation
    token, the listing is what the pages before it gave, in the order of
    the requests, followed by the entries of that page. *)
Theorem listing_concatenates_pages (n : nat) (token : option string)
  (acc objs : list ObjectInfo.t) (fuel : nat) :
  Requested n token acc -> listingPage token = Normal (objs, None) ->
  (n < fuel)%nat ->
  listingLoop fuel None [] = Some (Normal (acc ++ objs)).
Proof.
  intros Hreq Hpage Hfuel.
  replace fuel with (n + S (fuel - n - 1))%nat by lia.
  rewrite (listingLoop_requested _ _ _ Hreq). simpl. now rewrite Hpage.
Qed.

Lemma prefix_app (a b : string) : String.prefix a (a +:+ b) = true.
Proof.
  clear. induction a as [|c a IH]; simpl; [now destruct b|].
  destruct (Ascii.ascii_dec c c); [exact IH|congruence].
Qed.

(** X12.  When a listing request that the loop reaches is rejected, or
    answered with a status that is not a success, the load ends in the
    [catch] block: the error shown starts with the message of the
    failure, a message that mentions "fetch" gets the CORS hint with the
    origin of the page, and the rest of the state is as it was. *)
Theorem listing_request_fails (n : nat) (token : option string)
  (acc : list ObjectInfo.t) (st : AppState) (fuel : nat) (message : string) :
  Requested n token acc ->
  (fetch GET (listingUrl token) = Rejected message \/
   exists response,
     fetch GET (listingUrl token) = Resolved response /\ ok response = false /\
     message = "HTTP error: " +:+ string_of_Z (status response) +:+ " "
               +:+ statusText response) ->
  (n < fuel)%nat -> listingPending st = true ->
  step st (ListingSettled fuel)
  = setListingPending false
      (setLoading false (setError (Some (errorMessage message)) (setLoading true st)))
  /\ startsWith (errorMessage message) message = true
  /\ (includes message "fetch" = true ->
      errorMessage message
      = message +:+ ". Ensure the server is configured to allow CORS for "
        +:+ origin +:+ ".").
Proof.
  intros Hreq Hfail Hfuel Hpend.
  assert (listingPage token = Throw message) as Hpage.
  { unfold listingPage.
    destruct Hfail as [-> | (response & -> & Hok & ->)]; [reflexivity|].
    now rewrite Hok. }
  assert (fetchObjectsTry fuel = Some (Throw message)) as Htry.
  { unfold fetchObjectsTry.
    replace fuel with (n + S (fuel - n - 1))%nat by lia.
    rewrite (listingLoop_requested _ _ _ Hreq). simpl. now rewrite Hpage. }
  split; [|split].
  - unfold step, fetchObjects. now rewrite Hpend, Htry.
  - unfold errorMessage, startsWith.
    destruct (_ || _); [apply prefix_app|].
    pose proof (prefix_app message "") as Hp.
    replace (message +:+ "") with message in Hp; [exact Hp|].
    clear. induction message as [|c m IH]; [reflexivity|].
    change (String c m = String c (m +:+ "")). now rewrite <- IH.
  - intros Hinc. unfold errorMessage. now rewrite Hinc, orb_true_r.
Qed.

(** *** The viewer *)

Lemma findIndex_range {A : Type} (p : A -> bool) (l : list A) :
  -1 <= findIndex p l < Z.of_nat (length l).
Proof.
  clear. induction l as [|x l IH]; simpl; [lia|].
  destruct (p x); [lia|].
  destruct (Z.ltb_spec (findIndex p l) 0); lia.
Qed.

Lemma findIndex_none {A : Type} (p : A -> bool) (l : list A) :
  (forall x, In x l -> p x = false) -> findIndex p l = -1.
Proof.
  clear. induction l as [|x l IH]; intros H; simpl; [reflexivity|].
  rewrite (H x (or_introl eq_refl)).
  rewrite IH by (intros y Hy; apply H; now right). reflexivity.
Qed.

Lemma findIndex_key (l : list Image.t) (i : nat) (x : Image.t) :
  NoDup (map Image.key l) -> l !! i = Some x ->
  findIndex (fun image => String.eqb (Image.key image) (Image.key x)) l
  = Z.of_nat i.
Proof.
  clear. revert i. induction l as [|y l IH]; intros i Hnd Hi; [discriminate|].
  simpl in Hnd. apply NoDup_cons in Hnd as (Hnotin & Hnd). simpl.
  destruct i as [|i]; simpl in Hi.
  - injection Hi as ->. now rewrite String.eqb_refl.
  - destruct (String.eqb_spec (Image.key y) (Image.key x)) as [E|_].
    + exfalso. apply Hnotin. rewrite E. apply list_elem_of_In, in_map.
      eapply lookup_In, Hi.
    + rewrite (IH i Hnd Hi).
      destruct (Z.ltb_spec (Z.of_nat i) 0); lia.
Qed.

Lemma lookup_below {A : Type} (l : list A) (i : Z) :
  0 <= i < Z.of_nat (length l) -> exists x, l !! Z.to_nat i = Some x.
Proof.
  clear. intros H.
  destruct (lookup_lt_is_Some_2 l (Z.to_nat i)) as (x & Hx); [lia|eauto].
Qed.

(** X13.  The Previous and Next buttons of the viewer and their handlers
    agree.  A disabled button's handler changes nothing; an enabled
    button's handler selects the image one place before, or one place
    after, the first image that carries the selected key, and that place
    always holds an image.  Nothing but the selected image changes. *)
Theorem viewer_buttons_agree (st : AppState) :
  (hasPreviousImage st = false -> handlePreviousImage st = st) /\
  (hasNextImage st = false -> handleNextImage st = st) /\
  (hasPreviousImage st = true ->
   exists sel i image,
     selectedImage st = Some sel /\
     findIndex (fun image => String.eqb (Image.key image) (Image.key sel))
       (currentImages st) = Z.of_nat (S i) /\
     currentImages st !! i = Some image /\
     handlePreviousImage st = setSelectedImage (Some image) st) /\
  (hasNextImage st = true ->
   exists sel i image,
     selectedImage st = Some sel /\
     findIndex (fun image => String.eqb (Image.key image) (Image.key sel))
       (currentImages st) = Z.of_nat i - 1 /\
     currentImages st !! i = Some image /\
     handleNextImage st = setSelectedImage (Some image) st).
Proof.
  clear. unfold hasPreviousImage, hasNextImage, handlePreviousImage, handleNextImage.
  destruct (selectedImage st) as [sel|] eqn:Hsel;
    [|split; [reflexivity|split; [reflexivity|split; discriminate]]].
  set (idx := findIndex _ (currentImages st)).
  pose proof (findIndex_range
                (fun image => String.eqb (Image.key image) (Image.key sel))
                (currentImages st)) as Hr. fold idx in Hr.
  split; [intros ->; reflexivity|]. split; [intros ->; reflexivity|]. split.
  - intros Hp. rewrite Hp. apply Z.ltb_lt in Hp.
    destruct (lookup_below (currentImages st) (idx - 1)) as (image & Hi); [lia|].
    exists sel, (Z.to_nat (idx - 1)), image. rewrite Hi.
    split; [reflexivity|]. split; [lia|]. split; reflexivity.
  - intros Hn. rewrite Hn. apply Z.ltb_lt in Hn.
    destruct (lookup_below (currentImages st) (idx + 1)) as (image & Hi); [lia|].
    exists sel, (Z.to_nat (idx + 1)), image. rewrite Hi.
    split; [reflexivity|]. split; [lia|]. split; reflexivity.
Qed.

Lemma setSelectedImage_back (st : AppState) (sel image : Image.t) :
  selectedImage st = Some sel ->
  setSelectedImage (Some sel) (setSelectedImage (Some image) st) = st.
Proof. clear. destruct st. simpl. now intros ->. Qed.

Lemma handlePreviousImage_select (st : AppState) (sel image : Image.t) (i : nat) :
  selectedImage st = Some sel ->
  findIndex (fun image => String.eqb (Image.key image) (Image.key sel))
    (currentImages st) = Z.of_nat (S i) ->
  currentImages st !! i = Some image ->
  handlePreviousImage st = setSelectedImage (Some image) st.
Proof.
  clear. intros Hsel Hidx Hi. unfold handlePreviousImage. rewrite Hsel, Hidx.
  replace (Z.to_nat (Z.of_nat (S i) - 1)) with i by lia. rewrite Hi.
  destruct (Z.ltb_spec 0 (Z.of_nat (S i))); [reflexivity|lia].
Qed.

Lemma handleNextImage_select (st : AppState) (sel image : Image.t) (i : nat) :
  selectedImage st = Some sel ->
  findIndex (fun image => String.eqb (Image.key image) (Image.key sel))
    (currentImages st) = Z.of_nat i ->
  currentImages st !! S i = Some image ->
  handleNextImage st = setSelectedImage (Some image) st.
Proof.
  clear. intros Hsel Hidx Hi. unfold handleNextImage. rewrite Hsel, Hidx.
  replace (Z.to_nat (Z.of_nat i + 1)) with (S i) by lia. rewrite Hi.
  pose proof (lookup_lt_Some _ _ _ Hi).
  destruct (Z.ltb_spec (Z.of_nat i) (Z.of_nat (length (currentImages st)) - 1));
    [reflexivity|lia].
Qed.

(** X14.  While the keys of the images on view are distinct and the
    selected image is one of them, Previous followed by Next, and Next
    followed by Previous, come back to the state they started from. *)
Theorem viewer_round_trip (st : AppState) (sel : Image.t) :
  selectedImage st = Some sel -> In sel (currentImages st) ->
  NoDup (map Image.key (currentImages st)) ->
  (hasPreviousImage st = true -> handleNextImage (handlePreviousImage st) = st) /\
  (hasNextImage st = true -> handlePreviousImage (handleNextImage st) = st).
Proof.
  clear. intros Hsel Hin Hnd.
  apply list_elem_of_In, list_elem_of_lookup in Hin as (i & Hi).
  pose proof (findIndex_key _ _ _ Hnd Hi) as Hidx.
  pose proof (lookup_lt_Some _ _ _ Hi) as Hlen.
  unfold hasPreviousImage, hasNextImage. rewrite Hsel, Hidx. split.
  - intros Hp. apply Z.ltb_lt in Hp.
    destruct i as [|j]; [lia|].
    destruct (lookup_below (currentImages st) (Z.of_nat j)) as (image & Hj); [lia|].
    rewrite Nat2Z.id in Hj.
    rewrite (handlePreviousImage_select st sel image j Hsel Hidx Hj).
    rewrite (handleNextImage_select (setSelectedImage (Some image) st)
               image sel j eq_refl (findIndex_key _ _ _ Hnd Hj) Hi).
    now apply setSelectedImage_back.
  - intros Hn. apply Z.ltb_lt in Hn.
    destruct (lookup_below (currentImages st) (Z.of_nat (S i))) as (image & Hj);
      [lia|].
    rewrite Nat2Z.id in Hj.
    rewrite (handleNextImage_select st sel image i Hsel Hidx Hj).
    rewrite (handlePreviousImage_select (setSelectedImage (Some image) st)
               image sel i eq_refl (findIndex_key _ _ _ Hnd Hj) Hi).
    now apply setSelectedImage_back.
Qed.

(** X15.  At the ends of the images on view: with the selected image in
    the first place Previous is disabled and does nothing; with distinct
    keys and the selected image in the last place Next is disabled and
    does nothing.  There is no wrap-around. *)
Theorem viewer_stops_at_the_ends (st : AppState) (sel : Image.t) :
  selectedImage st = Some sel ->
  (forall rest, currentImages st = sel :: rest ->
     hasPreviousImage st = false /\ handlePreviousImage st = st) /\
  (forall front, currentImages st = front ++ [sel] ->
     NoDup (map Image.key (currentImages st)) ->
     hasNextImage st = false /\ handleNextImage st = st).
Proof.
  clear. intros Hsel. split.
  - intros rest E.
    unfold hasPreviousImage, handlePreviousImage. rewrite Hsel, E. simpl.
    now rewrite String.eqb_refl.
  - intros front E Hnd.
    assert (currentImages st !! length front = Some sel) as Hi.
    { rewrite E. now apply list_lookup_middle. }
    pose proof (findIndex_key _ _ _ Hnd Hi) as Hidx.
    assert (length (currentImages st) = S (length front)) as Hlen.
    { rewrite E, length_app. simpl. lia. }
    unfold hasNextImage, handleNextImage. rewrite Hsel, Hidx, Hlen.
    destruct (Z.ltb_spec (Z.of_nat (length front))
                (Z.of_nat (S (length front)) - 1)); [lia|auto].
Qed.

(** X16.  A selection that is not among the images on view (the viewer
    stays open while the date changes): Previous is disabled, Next is
    enabled as soon as there is an image on view, and Next selects the
    first of them. *)
Theorem viewer_selection_off_view (st : AppState) (sel first : Image.t)
  (rest : list Image.t) :
  selectedImage st = Some sel ->
  (forall image, In image (currentImages st) -> Image.key image <> Image.key sel) ->
  currentImages st = first :: rest ->
  hasPreviousImage st = false /\ handlePreviousImage st = st /\
  hasNextImage st = true /\
  handleNextImage st = setSelectedImage (Some first) st.
Proof.
  clear. intros Hsel Hoff E.
  assert (findIndex (fun image => String.eqb (Image.key image) (Image.key sel))
            (currentImages st) = -1) as Hidx.
  { apply findIndex_none. intros image Hin.
    apply String.eqb_neq. now apply Hoff. }
  unfold hasPreviousImage, handlePreviousImage, hasNextImage, handleNextImage.
  rewrite Hsel, Hidx. rewrite E.
  change (Z.to_nat (-1 + 1)) with 0%nat.
  change ((first :: rest) !! 0%nat) with (Some first).
  split; [reflexivity|]. split; [reflexivity|].
  destruct (Z.ltb_spec (-1) (Z.of_nat (length (first :: rest)) - 1)) as [_|H];
    [split; reflexivity|].
  simpl length in H. lia.
Qed.

(** *** Date navigation *)

(** The local day of the time [t] in a zone whose offset from UTC at the
    time [u] is [offset u] milliseconds.  With daylight saving the offset
    changes twice a year; [localDay] is the case of a constant offset. *)
Definition localDayAt (offset : Z -> Z) (t : Z) : Z := (t + offset t) / msPerDay.

Lemma localDay_localDayAt (t : Z) : localDay t = localDayAt (fun _ => tzOffset) t.
Proof. reflexivity. Qed.

Lemma localDayAt_next (offset : Z -> Z) (t : Z) :
  offset (t + msPerDay) = offset t ->
  localDayAt offset (t + msPerDay) = localDayAt offset t + 1.
Proof.
  clear. intros Hoff. unfold localDayAt. rewrite Hoff.
  replace (t + msPerDay + offset t) with (t + offset t + 1 * msPerDay) by lia.
  apply Z.div_add. discriminate.
Qed.

(** The test of [hasNextDate] reads the time value of the date only. *)
Lemma hasNextDate_time (d : Date) (t : Z) (now : Date) :
  getTime d = Num t ->
  hasNextDate (Some d) now = hasNextDate (Some (mkDate (Num t))) now.
Proof. clear. destruct d as [time]. simpl. now intros ->. Qed.

(** X17.  With a date selected, the Previous button selects the time
    24 hours earlier.  The Next button does nothing while it is disabled,
    and otherwise selects the time 24 hours later.  In local time, for
    any offset from UTC that may change with the time, the time selected
    falls on the local day before, or after, whenever the offset there is
    the offset at the time selected before: that is, unless a
    daylight-saving change lies in between. *)
Theorem date_navigation_moves_one_day (st : AppState) (now d : Date) (t : Z)
  (offset : Z -> Z) :
  selectedDate st = Some d -> getTime d = Num t ->
  selectedDate (step st (PreviousDateClick now))
  = Some (mkDate (Num (t - msPerDay))) /\
  (hasNextDate (Some d) now = false -> step st (NextDateClick now) = st) /\
  (hasNextDate (Some d) now = true ->
   selectedDate (step st (NextDateClick now))
   = Some (mkDate (Num (t + msPerDay)))) /\
  (offset (t - msPerDay) = offset t ->
   localDayAt offset (t - msPerDay) = localDayAt offset t - 1) /\
  (offset (t + msPerDay) = offset t ->
   localDayAt offset (t + msPerDay) = localDayAt offset t + 1).
Proof.
  intros Hsel Ht.
  split; [|split; [|split; [|split]]].
  - now rewrite step_selectedDate, Hsel, Ht.
  - intros Hoff. simpl. now rewrite Hsel, Hoff.
  - intros Hon. rewrite step_selectedDate, Hsel, Ht.
    simpl in Hon. apply negb_true_iff in Hon. now rewrite Hon.
  - intros Hoff.
    pose proof (localDayAt_next offset (t - msPerDay)) as H.
    replace (t - msPerDay + msPerDay) with t in H by lia.
    rewrite H by congruence. lia.
  - apply localDayAt_next.
Qed.

(** X18.  Pressing Next [n] times from the time [t] selects the time
    [t + k * 24 hours] for some [k <= n]: every press made while the
    button is enabled adds 24 hours, and [k] is less than [n] only when
    the button is disabled at the date reached, where every further press
    changes nothing.  So Next stops at the first step of 24 hours that
    lands on the current day. *)
Theorem next_date_stops_at_today (n : nat) (st : AppState) (now d : Date)
  (t : Z) :
  selectedDate st = Some d -> getTime d = Num t ->
  exists (k : nat) (d' : Date),
    (k <= n)%nat /\
    selectedDate (run st (repeat (NextDateClick now) n)) = Some d' /\
    getTime d' = Num (t + Z.of_nat k * msPerDay) /\
    (forall j : nat,
        (j < k)%nat ->
        hasNextDate (Some (mkDate (Num (t + Z.of_nat j * msPerDay)))) now = true) /\
    ((k < n)%nat -> hasNextDate (Some d') now = false).
Proof.
  revert st d t. induction n as [|n IH]; intros st d t Hsel Ht.
  - exists 0%nat, d. split; [lia|]. split; [exact Hsel|].
    split; [rewrite Ht; f_equal; lia|]. split; intros; lia.
  - change (run st (repeat (NextDateClick now) (S n)))
      with (run (step st (NextDateClick now)) (repeat (NextDateClick now) n)).
    pose proof (hasNextDate_time d t now Ht) as Htime.
    destruct (hasNextDate (Some d) now) eqn:Hon.
    + assert (selectedDate (step st (NextDateClick now))
              = Some (mkDate (Num (t + msPerDay)))) as Hstep.
      { rewrite step_selectedDate, Hsel, Ht.
        simpl in Hon. apply negb_true_iff in Hon. now rewrite Hon. }
      destruct (IH _ _ (t + msPerDay) Hstep eq_refl)
        as (k & d' & Hk & Hd' & Ht' & Hbefore & Hafter).
      exists (S k), d'. split; [lia|]. split; [exact Hd'|].
      split; [rewrite Ht'; f_equal; lia|]. split.
      * intros [|j] Hj.
        -- replace (t + Z.of_nat 0 * msPerDay) with t by lia.
           now rewrite <- Htime.
        -- specialize (Hbefore j ltac:(lia)).
           replace (t + Z.of_nat (S j) * msPerDay)
             with (t + msPerDay + Z.of_nat j * msPerDay) by lia.
           exact Hbefore.
      * intros Hlt. apply Hafter. lia.
    + assert (step st (NextDateClick now) = st) as ->
        by (simpl; now rewrite Hsel, Hon).
      destruct (IH _ _ t Hsel Ht) as (k & d' & Hk & Hd' & Ht' & Hbefore & Hafter).
      destruct k as [|k].
      * exists 0%nat, d'. split; [lia|]. split; [exact Hd'|].
        split; [exact Ht'|]. split; [intros; lia|].
        intros _. replace (t + Z.of_nat 0 * msPerDay) with t in Ht' by lia.
        rewrite (hasNextDate_time d' t now Ht'). now rewrite <- Htime.
      * exfalso. specialize (Hbefore 0%nat ltac:(lia)).
        replace (t + Z.of_nat 0 * msPerDay) with t in Hbefore by lia.
        congruence.
Qed.

(** X19.  Previous followed by Next selects the date that was selected
    before, whenever the Next button is enabled at the second click. *)
Theorem previous_then_next_date (st : AppState) (now now' d : Date) (t : Z) :
  selectedDate st = Some d -> getTime d = Num t ->
  hasNextDate (Some (mkDate (Num (t - msPerDay)))) now' = true ->
  selectedDate (step (step st (PreviousDateClick now)) (NextDateClick now'))
  = Some d.
Proof.
  intros Hsel Ht Hon.
  rewrite step_selectedDate, (step_selectedDate st (PreviousDateClick now)).
  rewrite Hsel, Ht.
  change (num_sub (Num t) (Num msPerDay)) with (Num (t - msPerDay)).
  simpl in Hon. apply negb_true_iff in Hon. rewrite Hon.
  change (num_add (getTime (mkDate (Num (t - msPerDay)))) (Num msPerDay))
    with (Num (t - msPerDay + msPerDay)).
  replace (t - msPerDay + msPerDay) with t by lia.
  destruct d as [time]. simpl in Ht. now rewrite Ht.
Qed.

(** *** What the retained images carry *)

(** X20.  Every image that a reachable state holds on to carries the
    metadata of a successful probe of its own key: the size is what
    [parseInt] reads in the [Content-Length] header, the content type is
    the [Content-Type] header or "unknown", and the probe did carry a
    [Content-Length] header. *)
Theorem retained_metadata_is_probed (now : Date) (events : list Event)
  (image : Image.t) :
  Retains (run (initialState now) events) image ->
  exists response,
    fetch HEAD (bucketUrl +:+ encodeURIComponent (Image.key image))
    = Resolved response /\
    ok response = true /\
    Image.size image = parseInt (str_or (headers response "Content-Length") "0") /\
    Image.contentType image = str_or (headers response "Content-Type") "unknown" /\
    headers response "Content-Length" <> None.
Proof.
  revert image.
  apply (run_retained
           (fun image =>
              exists response,
                fetch HEAD (bucketUrl +:+ encodeURIComponent (Image.key image))
                = Resolved response /\
                ok response = true /\
                Image.size image
                = parseInt (str_or (headers response "Content-Length") "0") /\
                Image.contentType image
                = str_or (headers response "Content-Type") "unknown" /\
                headers response "Content-Length" <> None)).
  intros obj response Hresp Hok size Hlt. exists response. simpl.
  split; [exact Hresp|]. split; [exact Hok|]. split; [reflexivity|].
  split; [reflexivity|].
  intros Hnone. unfold size in Hlt. rewrite Hnone in Hlt. discriminate.
Qed.

(** X21.  From any state in which no key occurs twice among the
    objects, once the date effect and [n] page loads have run, each to
    its end before the next one starts, no key occurs twice among the
    images displayed, nor among the images the viewer steps through. *)
Theorem no_image_twice (st : AppState) (n : nat) :
  NoDup (map ObjectInfo.key (objects st)) ->
  let st' := Nat.iter n loadMoreImages (dateEffect st) in
  NoDup (map Image.key (displayedImages st')) /\
  NoDup (map Image.key (currentImages st')).
Proof.
  intros Hnd st'.
  destruct (pages_listed n st Hnd) as (Hi & Hd). fold st' in Hi, Hd.
  assert (NoDup (map Image.key (images st'))) as Himg.
  { replace (map Image.key (images st'))
      with (map ObjectInfo.key (map toObject (images st')))
      by (rewrite map_map; reflexivity).
    eapply sublist_NoDup; [exact Hnd|]. now apply map_sublist. }
  split; [now rewrite Hd|].
  eapply sublist_NoDup; [exact Himg|]. apply map_sublist.
  unfold currentImages. destruct (selectedDate st'); [|reflexivity].
  apply List_filter_sublist.
Qed.

(** *** A listing entry without a valid date *)

Lemma mapC_In_throw {A B : Type} (f : A -> Completion B) (l : list A) (x : A)
  (m : string) :
  In x l -> f x = Throw m -> (forall y m', f y = Throw m' -> m' = m) ->
  mapC f l = Throw m.
Proof.
  clear. intros Hin Hx Hall.
  induction l as [|y l IH]; [destruct Hin|]. simpl.
  destruct (f y) as [b|m'] eqn:E; simpl.
  - destruct Hin as [->|Hin]; [congruence|]. now rewrite (IH Hin).
  - now rewrite (Hall _ _ E).
Qed.

(** X22.  One image entry whose [LastModified] does not read as a date
    fails the whole load: [toISOString] throws while the days are
    computed, the error shown is "Invalid time value", and nothing of the
    listing is kept. *)
Theorem invalid_date_fails_the_load (fuel : nat)
  (objectList : list ObjectInfo.t) (obj : ObjectInfo.t) (st : AppState) :
  listingLoop fuel None [] = Some (Normal objectList) ->
  In obj objectList -> isImageKey (ObjectInfo.key obj) = true ->
  Date_parse (ObjectInfo.lastModified obj) = NaN ->
  listingPending st = true ->
  step st (ListingSettled fuel)
  = setListingPending false
      (setLoading false
         (setError (Some "Invalid time value") (setLoading true st))).
Proof.
  intros Hloop Hin Hkey Hdate Hpend.
  assert (computeDates (filterAndSort objectList) = Throw "Invalid time value")
    as Hdates.
  { unfold computeDates.
    rewrite (mapC_In_throw _ _ obj "Invalid time value"); [reflexivity| | |].
    - unfold filterAndSort.
      eapply Permutation_in; [symmetry; apply sort_Permutation|].
      apply filter_In. auto.
    - unfold toISOString, normalizeDate, setHours0, newDate. simpl.
      now rewrite Hdate.
    - intros y m'. unfold toISOString. destruct (getTime _); congruence. }
  assert (fetchObjectsTry fuel = Some (Throw "Invalid time value")) as Htry.
  { unfold fetchObjectsTry. rewrite Hloop. simpl.
    destruct objectList as [|o l]; [destruct Hin|]. simpl.
    now rewrite Hdates. }
  unfold step, fetchObjects. now rewrite Hpend, Htry.
Qed.

(** *** Scrolling *)

Lemma fetchMetadata_length (objectsToFetch : list ObjectInfo.t)
  (cache : gmap string Image.t) :
  (length (fetchMetadata objectsToFetch cache).2 <= length objectsToFetch)%nat.
Proof.
  revert cache. induction objectsToFetch as [|obj rest IH]; intros cache; simpl;
    [lia|].
  destruct (fetchMetadataTask cache obj) as [[cache1 w1] r].
  specialize (IH cache1).
  destruct (fetchMetadata rest cache1) as [[cache2 w2] imgs]. simpl in *.
  rewrite length_app. destruct r; simpl; lia.
Qed.

(** X23.  In any state, the sentinel coming into view never removes or
    reorders what is loaded and on display: it appends the same new
    images, at most one page of 20, to both lists, moves the page counter
    on by at most one, and leaves the listing, the selected date and the
    viewer alone. *)
Theorem scrolling_appends (st : AppState) :
  let st' := step st SentinelVisible in
  exists newImages,
    displayedImages st' = displayedImages st ++ newImages /\
    images st' = images st ++ newImages /\
    (length newImages <= 20)%nat /\
    (page st <= page st' <= page st + 1)%nat /\
    objects st' = objects st /\ selectedDate st' = selectedDate st /\
    selectedImage st' = selectedImage st /\ error st' = error st.
Proof.
  intros st'. unfold st'. simpl.
  destruct (hasMore st) eqn:Hm; [destruct (loading st) eqn:Hl|].
  - rewrite loadMoreImages_idle by auto. exists [].
    rewrite !app_nil_r. simpl. repeat split; lia.
  - pose proof (loadMoreImages_result st Hm Hl) as R. simpl in R.
    pose proof (fetchMetadata_length
                  (slice (page st * batchSize) ((page st + 1) * batchSize)
                     (objectsToDisplay (selectedDate st) (objects st)))
                  (metadataCache st)) as Hlen.
    destruct (fetchMetadata _ (metadataCache st)) as [[cache' w] newImages].
    destruct R as (Hi & Hd & _).
    exists newImages. split; [exact Hd|]. split; [exact Hi|]. split.
    + simpl in Hlen. unfold slice in Hlen. rewrite length_take in Hlen.
      unfold batchSize in Hlen. lia.
    + unfold loadMoreImages. rewrite Hm, Hl. simpl.
      unfold runFetchMetadata. simpl.
      destruct (fetchMetadata _ (metadataCache st)) as [[c1 w1] n1]. simpl.
      repeat split; lia.
  - rewrite loadMoreImages_idle by auto. exists [].
    rewrite !app_nil_r. simpl. repeat split; lia.
Qed.

(** *** The file size in the viewer *)

(** X24.  A size of 1048525 to 1048575 bytes, just under one megabyte,
    is shown as "1024.0 KB": the unit is chosen before the figure is
    rounded to one decimal. *)
Theorem just_under_a_megabyte (b : Z) :
  1048525 <= b < 1048576 -> formatFileSize (Num b) = "1024.0 KB".
Proof.
  clear. intros Hb. unfold formatFileSize.
  destruct (Z.ltb_spec b 1024) as [H|_]; [lia|].
  destruct (Z.ltb_spec b (1024 * 1024)) as [_|H]; [|lia].
  unfold toFixed1.
  assert ((20 * b + 1024) / (2 * 1024) = 10240) as ->.
  { symmetry. apply (Z.div_unique _ _ _ (20 * b + 1024 - 10240 * 2048)); lia. }
  reflexivity.
Qed.

End App.

(** ** The properties on the test platform *)

Local Abbreviation galleryFetch := (Demo.fetch Demo.galleryRoutes).
Local Abbreviation galleryParse := (Demo.parseFromString Demo.galleryDocs).
Local Abbreviation galleryRun :=
  (run Demo.tzOffset Demo.Date_parse galleryFetch galleryParse Demo.origin
     (initialState Demo.now)).
(** The gallery once the listing has arrived, with day A selected. *)
Local Abbreviation loadedA := (galleryRun [ListingSettled 2]).
(** The same gallery with no date selected. *)
Local Abbreviation loadedAll := (galleryRun [ListingSettled 2; DatePicked None]).

(** C1 as stated fails when no date is selected: the Next button is off
    although the selection is not the current day. *)
Lemma hasNextDate_all_dates_off :
  hasNextDate Demo.tzOffset None Demo.now = false /\
  ~ (exists d, None = Some d /\ sameLocalDay Demo.tzOffset d Demo.now).
Proof.
  split; [reflexivity|]. intros (d & [=] & _).
Qed.

(** The listing of the gallery bucket: 45 images, 20 of them of day A. *)
Example gallery_listing :
  length (objects loadedA) = 45%nat /\
  length (filteredSubset Demo.tzOffset Demo.Date_parse (Some Demo.now)
            (objects loadedA)) = 20%nat /\
  error loadedA = None.
Proof. vm_compute. auto. Qed.

(** With day A selected, one page shows its 20 images and nothing is
    left. *)
Example day_A_after_page_1 :
  page loadedA = 1%nat /\ length (displayedImages loadedA) = 20%nat /\
  hasMore loadedA = false.
Proof. vm_compute. auto. Qed.

(** With no date selected there is more after page 1 and nothing after
    page 3, whose 5 images complete the 45. *)
Example all_dates_pages :
  (page loadedAll, length (displayedImages loadedAll), hasMore loadedAll)
  = (1%nat, 20%nat, true) /\
  let st3 := galleryRun [ListingSettled 2; DatePicked None; SentinelVisible;
                         SentinelVisible] in
  (page st3, length (displayedImages st3), hasMore st3) = (3%nat, 45%nat, false).
Proof. vm_compute. auto. Qed.


Local Abbreviation brokenFetch := (Demo.fetch Demo.brokenRoutes).

(** C3 on the bucket whose second listing page is damaged: the load
    started at mount fails with the parse message and leaves the gallery
    as it was. *)
Lemma malformed_listing_fails_demo :
  let st := initialState Demo.now in
  exists acc,
    Requested brokenFetch galleryParse 1 (Some "next/1") acc /\
    BadPayload brokenFetch galleryParse (Some "next/1") /\
    (1 < 2)%nat /\ listingPending st = true /\
    exists message st',
      (message = htmlMessage \/ message = parseMessage) /\
      listingLoop brokenFetch galleryParse 2 None [] = Some (Throw message) /\
      fetchObjects Demo.tzOffset Demo.Date_parse brokenFetch galleryParse
        Demo.origin 2 st = Some st' /\
      step Demo.tzOffset Demo.Date_parse brokenFetch galleryParse Demo.origin st
        (ListingSettled 2) = setListingPending false st' /\
      error st' = Some message /\ loading st' = false /\
      objects st' = objects st /\ uniqueDates st' = uniqueDates st /\
      images st' = images st /\ displayedImages st' = displayedImages st /\
      page st' = page st /\ hasMore st' = hasMore st /\
      metadataCache st' = metadataCache st /\
      selectedDate st' = selectedDate st /\ selectedImage st' = selectedImage st.
Proof.
  intros st.
  assert (exists objs,
             listingPage brokenFetch galleryParse None = Normal (objs, Some "next/1"))
    as (objs & Hpage) by (eexists; vm_compute; reflexivity).
  assert (Requested brokenFetch galleryParse 1 (Some "next/1") ([] ++ objs)) as Hreq
    by (eapply Requested_next; [apply Requested_first|exact Hpage]).
  assert (BadPayload brokenFetch galleryParse (Some "next/1")) as Hbad.
  { eexists. split; [vm_compute; reflexivity|]. split; [reflexivity|].
    right. reflexivity. }
  assert (1 < 2)%nat as Hfuel by lia.
  exists ([] ++ objs). split; [exact Hreq|]. split; [exact Hbad|].
  split; [exact Hfuel|]. split; [reflexivity|].
  exact (malformed_listing_fails Demo.tzOffset Demo.Date_parse brokenFetch
           galleryParse Demo.origin 1 (Some "next/1") ([] ++ objs) st 2
           Hreq Hbad Hfuel eq_refl).
Defined.

(** A browser page in place of the listing fails the load with the HTML
    message. *)
Example html_listing_fails :
  let st := step Demo.tzOffset Demo.Date_parse (Demo.fetch Demo.htmlRoutes)
              galleryParse Demo.origin (initialState Demo.now) (ListingSettled 1) in
  error st = Some htmlMessage /\ objects st = [] /\ displayedImages st = [].
Proof. vm_compute. auto. Qed.

Local Abbreviation emptyFetch := (Demo.fetch Demo.emptyRoutes).
Local Abbreviation emptyParse := (Demo.parseFromString Demo.emptyDocs).
Local Abbreviation textFetch := (Demo.fetch Demo.textOnlyRoutes).
Local Abbreviation textParse := (Demo.parseFromString Demo.textOnlyDocs).

(** C7 as stated fails on a bucket that holds a text file only: the
    listing completes with no qualifying image, and no error is raised. *)
Lemma text_only_bucket_no_error :
  let st := step Demo.tzOffset Demo.Date_parse textFetch textParse Demo.origin
              (initialState Demo.now) (ListingSettled 1) in
  listingLoop textFetch textParse 1 None []
  = Some (Normal [ObjectInfo.mk "readme.txt" Demo.dayA]) /\
  List.filter (fun obj => isImageKey (ObjectInfo.key obj))
    [ObjectInfo.mk "readme.txt" Demo.dayA] = [] /\
  fetchObjectsTry Demo.tzOffset Demo.Date_parse textFetch textParse 1
  = Some (Normal ([], [])) /\
  error st = None /\ objects st = [] /\ loading st = false.
Proof. vm_compute. auto 10. Qed.

(** C7, amended, on the empty bucket. *)
Lemma empty_listing_error_demo :
  let st := initialState Demo.now in
  listingLoop emptyFetch emptyParse 1 None [] = Some (Normal []) /\
  (exists st',
      fetchObjects Demo.tzOffset Demo.Date_parse emptyFetch emptyParse
        Demo.origin 1 st = Some st' /\
      error st' = Some noObjectsMessage /\ objects st' = objects st).
Proof.
  intros st.
  assert (listingLoop emptyFetch emptyParse 1 None [] = Some (Normal [])) as H
    by (vm_compute; reflexivity).
  split; [exact H|].
  exact (proj1 (proj2 (empty_listing_error Demo.tzOffset Demo.Date_parse
                         emptyFetch emptyParse Demo.origin 1 [] st H))
               eq_refl).
Defined.

(** Every answer of the test server to a probe carries a numeric
    [Content-Length]. *)
Lemma demo_probe_numeric (routes : list (string * string)) (url : string)
  (response : Response) :
  Demo.fetch routes HEAD url = Resolved response -> ok response = true ->
  parseInt (str_or (headers response "Content-Length") "0") <> NaN.
Proof.
  unfold Demo.fetch, Demo.probe.
  destruct (includes url "offline"); [discriminate|].
  destruct (includes url "missing"); [intros [= <-]; discriminate|].
  destruct (includes url "thumb"); intros [= <-] _; discriminate.
Qed.

(** X25 on an image of the gallery with day A selected. *)
Lemma retained_size_demo :
  let image := Image.mk "a-0.JPG" Demo.dayA (Num 204800) "image/jpeg" in
  Retains loadedA image /\
  num_lt (Image.size image) (Num 10240) = false /\
  num_ge (Image.size image) (Num 10240) = true.
Proof.
  intros image.
  assert (Retains loadedA image) as Hret by (left; vm_compute; auto).
  split; [exact Hret|].
  destruct (retained_size_at_least_floor Demo.tzOffset Demo.Date_parse
              galleryFetch galleryParse Demo.origin Demo.now [ListingSettled 2]
              image Hret) as (Hlt & Hge).
  split; [exact Hlt|].
  exact (Hge (demo_probe_numeric Demo.galleryRoutes)).
Defined.

(** A server whose probes answer with a [Content-Length] that is not a
    number, and a bucket with one image. *)
Local Abbreviation nanFetch :=
  (fun (m : Method) (url : string) =>
     match m with
     | HEAD => Resolved (mkResponse true 200 "OK" "" (Demo.header "abc" "image/gif"))
     | GET =>
         Demo.fetch [(Demo.firstUrl, "<ListBucketResult>nan</ListBucketResult>")]
           GET url
     end).
Local Abbreviation nanParse :=
  (Demo.parseFromString
     [("<ListBucketResult>nan</ListBucketResult>",
       mkDocument false [Demo.entry "nan.gif" Demo.dayA] None)]).

(** C4.  The code on a probe that answers 200 with the header
    [Content-Length: abc]: [parseInt] reads [NaN], for which the test
    [size < minFileSize] is false, so the record is not dropped.  It is
    kept and displayed with the size [NaN], which is not at least
    10240. *)
Theorem nan_size_is_retained :
  let st := run Demo.tzOffset Demo.Date_parse nanFetch nanParse Demo.origin
              (initialState Demo.now) [ListingSettled 1] in
  let image := Image.mk "nan.gif" Demo.dayA NaN "image/gif" in
  probedSize nanFetch (ObjectInfo.mk "nan.gif" Demo.dayA) = NaN /\
  num_lt NaN (Num minFileSize) = false /\
  images st = [image] /\ displayedImages st = [image] /\
  Retains st image /\
  num_ge (Image.size image) (Num minFileSize) = false.
Proof.
  intros st image.
  split; [vm_compute; reflexivity|]. split; [reflexivity|].
  split; [vm_compute; reflexivity|]. split; [vm_compute; reflexivity|].
  split; [|reflexivity].
  left. vm_compute. auto.
Qed.

(** C5 on ten candidates two of which fail their probe. *)
Lemma fetchMetadata_drops_failures_demo :
  cacheKeyed ∅ /\
  let '(cache', w, newImages) := fetchMetadata galleryFetch Demo.candidates ∅ in
  map Image.key newImages
  = map ObjectInfo.key
      (List.filter (retained galleryFetch ∅) Demo.candidates) /\
  w = flat_map (probeWarning galleryFetch ∅) Demo.candidates /\
  (forall obj, In obj Demo.candidates ->
     (∅ : gmap string Image.t) !! ObjectInfo.key obj = None ->
     probeFails galleryFetch obj = true ->
     ~ In (ObjectInfo.key obj) (map Image.key newImages) /\
     length (probeWarning galleryFetch ∅ obj) = 1%nat) /\
  cacheKeyed cache'.
Proof.
  assert (cacheKeyed ∅) as H.
  { intros k img Hk. rewrite lookup_empty in Hk. discriminate. }
  split; [exact H|].
  exact (fetchMetadata_drops_failures galleryFetch Demo.candidates ∅ H).
Defined.

(** Of the ten candidates exactly the eight whose probe succeeds come
    back, in order, and the console holds one warning for each of the two
    failures. *)
Example eight_of_ten :
  let '(cache', w, newImages) := fetchMetadata galleryFetch Demo.candidates ∅ in
  map Image.key newImages
  = ["p0.jpg"; "p1.jpg"; "p3.jpg"; "p4.jpg"; "p5.jpg"; "p7.jpg"; "p8.jpg"; "p9.jpg"]
  /\ w = [Warn "Error fetching metadata for offline-2.jpg:";
          Warn "Failed to fetch metadata for missing-6.png"]
  /\ size cache' = 8%nat.
Proof. vm_compute. auto. Qed.

(** The component on the bucket of the ten candidates: the load of day A
    warns once, the load of all dates warns twice and keeps eight
    images. *)
Example eight_of_ten_in_the_gallery :
  let st := run Demo.tzOffset Demo.Date_parse (Demo.fetch Demo.candidatesRoutes)
              (Demo.parseFromString Demo.candidatesDocs) Demo.origin
              (initialState Demo.now) [ListingSettled 1; DatePicked None] in
  length (objects st) = 10%nat /\ length (images st) = 8%nat /\
  length (displayedImages st) = 8%nat /\ error st = None /\
  List.filter (fun e => match e with Warn _ => true | Log _ => false end)
    (console st)
  = [Warn "Error fetching metadata for offline-2.jpg:";
     Warn "Error fetching metadata for offline-2.jpg:";
     Warn "Failed to fetch metadata for missing-6.png"].
Proof. vm_compute. auto 10. Qed.

(** C6 on the gallery: from page 3 of all dates to day A. *)
Lemma date_change_resets_demo :
  let st := galleryRun [ListingSettled 2; DatePicked None; SentinelVisible;
                        SentinelVisible] in
  let v := Some Demo.now in
  selectedDate st <> v /\
  let reset := dateEffectReset (writeSelectedDate v st) in
  let st' := setSelectedDate Demo.tzOffset Demo.Date_parse galleryFetch v st in
  (page reset = 1%nat /\ metadataCache reset = ∅ /\
   displayedImages reset = [] /\ images reset = [] /\
   objects reset = objects st /\ uniqueDates reset = uniqueDates st) /\
  st' = (if (0 <? length (objects st))%nat
         then fetchInitialImages Demo.tzOffset Demo.Date_parse galleryFetch reset
         else reset) /\
  page st' = 1%nat /\ selectedDate st' = v /\
  objects st' = objects st /\ uniqueDates st' = uniqueDates st /\
  (displayedImages st', metadataCache st') =
    (if (0 <? length (objects st))%nat
     then
       let '(cache', _, newImages) :=
         fetchMetadata galleryFetch
           (slice 0 batchSize
              (objectsToDisplay Demo.tzOffset Demo.Date_parse v (objects st))) ∅ in
       (newImages, cache')
     else ([], ∅)).
Proof.
  intros st v.
  assert (selectedDate st <> v) as H by (vm_compute; discriminate).
  split; [exact H|].
  exact (date_change_resets Demo.tzOffset Demo.Date_parse galleryFetch v st H).
Defined.

(** The date change on the gallery: 45 images displayed before, the 20
    of day A after, and the listing as it was. *)
Example date_change_window :
  let st := galleryRun [ListingSettled 2; DatePicked None; SentinelVisible;
                        SentinelVisible] in
  let st' := step Demo.tzOffset Demo.Date_parse galleryFetch galleryParse
               Demo.origin st (DatePicked (Some Demo.now)) in
  (page st, length (displayedImages st), size (metadataCache st))
  = (3%nat, 45%nat, 45%nat) /\
  (page st', length (displayedImages st'), size (metadataCache st'))
  = (1%nat, 20%nat, 20%nat) /\
  objects st' = objects st.
Proof. vm_compute. auto. Qed.


(** A listing that names the key k.jpg twice, with the newest and with
    the oldest date, around twenty images of day B. *)
Local Abbreviation twiceFetch :=
  (Demo.fetch [(Demo.firstUrl, "<ListBucketResult>twice</ListBucketResult>")]).
Local Abbreviation twiceParse :=
  (Demo.parseFromString
     [("<ListBucketResult>twice</ListBucketResult>",
       mkDocument false
         ([Demo.entry "k.jpg" Demo.dayA] ++ Demo.entries "b" ".jpg" Demo.dayB 20
          ++ [Demo.entry "k.jpg" Demo.dayC])
         None)]).



(** The bucket lists day B before day A; the gallery shows day A first,
    each day in the order of the listing. *)
Example gallery_order :
  let st := galleryRun [ListingSettled 2; DatePicked None; SentinelVisible] in
  map Image.key (take 3 (images st)) = ["a-0.JPG"; "a-1.JPG"; "a-2.JPG"] /\
  map Image.key (take 3 (drop 20 (images st))) = ["b-0.jpg"; "b-1.jpg"; "b-2.jpg"] /\
  length (images st) = 40%nat.
Proof. vm_compute. auto. Qed.

(** C10 on the gallery. *)
Lemma today_is_the_default_demo :
  selectedDate (initialState Demo.now) = Some Demo.now /\
  (forall fuel,
      Forall (fun image =>
                sameLocalDay Demo.tzOffset
                  (newDate Demo.Date_parse (Image.lastModified image)) Demo.now)
        (displayedImages
           (step Demo.tzOffset Demo.Date_parse galleryFetch galleryParse
              Demo.origin (initialState Demo.now) (ListingSettled fuel)))) /\
  (forall st now',
      selectedDate
        (step Demo.tzOffset Demo.Date_parse galleryFetch galleryParse Demo.origin
           st (ClearClick now')) =
      match selectedDate st with
      | Some _ => Some now'
      | None => None
      end) /\
  (forall events,
      selectedDate (galleryRun events) = None -> In (DatePicked None) events).
Proof.
  exact (today_is_the_default Demo.tzOffset Demo.Date_parse galleryFetch
           galleryParse Demo.origin Demo.now).
Defined.

(** The all-dates view through the date picker, and Clear from a past
    day. *)
Example all_dates_and_clear :
  selectedDate (galleryRun [ListingSettled 2; DatePicked None]) = None /\
  selectedDate (galleryRun [ListingSettled 2; PreviousDateClick Demo.now;
                            ClearClick Demo.now]) = Some Demo.now /\
  selectedDate (galleryRun [ListingSettled 2; DatePicked None;
                            ClearClick Demo.now]) = None.
Proof. vm_compute. auto. Qed.

(** ** The further properties on the test platform *)

Local Abbreviation imageA0 := (Image.mk "a-0.JPG" Demo.dayA (Num 204800) "image/jpeg").
Local Abbreviation imageA1 := (Image.mk "a-1.JPG" Demo.dayA (Num 204800) "image/jpeg").
Local Abbreviation imageB0 := (Image.mk "b-0.jpg" Demo.dayB (Num 204800) "image/jpeg").
(** A network on which every request is rejected. *)
Local Abbreviation offlineFetch :=
  (fun (_ : Method) (_ : string) => Rejected "Failed to fetch").

(** X2 on a record that is cached although its probe would be
    rejected. *)
Lemma fetchMetadata_all_cached_demo :
  let cached := Image.mk "offline-2.jpg" Demo.dayA (Num 204800) "image/jpeg" in
  let cache : gmap string Image.t := {["offline-2.jpg" := cached]} in
  let batch := [ObjectInfo.mk "offline-2.jpg" Demo.dayA] in
  (forall obj, In obj batch -> is_Some (cache !! ObjectInfo.key obj)) /\
  fetchMetadata galleryFetch batch cache
  = (cache, [], omap (fun obj => cache !! ObjectInfo.key obj) batch).
Proof.
  intros cached cache batch.
  assert (forall obj, In obj batch -> is_Some (cache !! ObjectInfo.key obj)) as H.
  { intros obj [<-|[]]. exists cached. apply lookup_singleton_eq. }
  split; [exact H|].
  exact (fetchMetadata_all_cached galleryFetch batch cache H).
Defined.

(** X3 on the ten candidates, from an empty cache. *)
Lemma fetchMetadata_again_demo :
  NoDup (map ObjectInfo.key Demo.candidates) /\
  cacheKeyed ∅ /\ cacheSound galleryFetch ∅ /\
  let '(cache', w, newImages) := fetchMetadata galleryFetch Demo.candidates ∅ in
  ∅ ⊆ cache' /\
  Forall (fun image => cache' !! Image.key image = Some image) newImages /\
  fetchMetadata galleryFetch Demo.candidates cache'
  = (cache',
     flat_map (fun obj => if enrichable galleryFetch obj then []
                          else probeWarning galleryFetch ∅ obj)
       Demo.candidates,
     newImages).
Proof.
  assert (cacheKeyed ∅) as H1.
  { intros k img Hk. rewrite lookup_empty in Hk. discriminate. }
  assert (cacheSound galleryFetch ∅) as H2.
  { intros obj [img Hk]. rewrite lookup_empty in Hk. discriminate. }
  assert (NoDup (map ObjectInfo.key Demo.candidates)) as H0
    by (apply (bool_decide_unpack _); vm_compute; exact I).
  split; [exact H0|]. split; [exact H1|]. split; [exact H2|].
  exact (fetchMetadata_again galleryFetch Demo.candidates ∅ H0 H1 H2).
Defined.

(** The second run on the ten candidates: the same eight images and the
    two warnings again. *)
Example candidates_twice :
  let '(cache', _, newImages) := fetchMetadata galleryFetch Demo.candidates ∅ in
  let '(cache'', w, again) := fetchMetadata galleryFetch Demo.candidates cache' in
  again = newImages /\ length again = 8%nat /\
  w = [Warn "Error fetching metadata for offline-2.jpg:";
       Warn "Failed to fetch metadata for missing-6.png"].
Proof. vm_compute. auto. Qed.

(** The effect and the page loads after it, on the gallery. *)
Local Abbreviation pagesAfter :=
  (fun (n : nat) (st : AppState) =>
     Nat.iter n (loadMoreImages Demo.tzOffset Demo.Date_parse galleryFetch)
       (dateEffect Demo.tzOffset Demo.Date_parse galleryFetch st)).

(** X4 and X7 on the gallery, all dates, one page load after the
    effect: 40 of the 45 images, counted as 40. *)
Example two_pages_of_all_dates :
  let st' := pagesAfter 1%nat loadedAll in
  page st' = 2%nat /\ length (displayedImages st') = 40%nat /\
  getImageCount Demo.tzOffset Demo.Date_parse st' = 40%nat /\
  hasMore st' = true.
Proof. vm_compute. auto. Qed.

(** X5 on the gallery, all dates, after the effect and two page
    loads. *)
Lemma nothing_left_when_no_more_demo :
  hasMore (pagesAfter 2%nat loadedAll) = false /\
  let st' := pagesAfter 2%nat loadedAll in
  map Image.key (displayedImages st')
  = map ObjectInfo.key
      (List.filter (enrichable galleryFetch)
         (filteredSubset Demo.tzOffset Demo.Date_parse (selectedDate loadedAll)
            (objects loadedAll))).
Proof.
  assert (hasMore (pagesAfter 2%nat loadedAll) = false) as H
    by (vm_compute; reflexivity).
  split; [exact H|].
  exact (nothing_left_when_no_more Demo.tzOffset Demo.Date_parse galleryFetch
           loadedAll 2 H).
Defined.

(** X6 on an image of the gallery. *)
Lemma retained_images_are_listed_demo :
  Retains loadedA imageA0 /\
  In (toObject imageA0) (objects loadedA) /\
  isImageKey (Image.key imageA0) = true.
Proof.
  assert (Retains loadedA imageA0) as H by (left; vm_compute; auto).
  split; [exact H|].
  exact (retained_images_are_listed Demo.tzOffset Demo.Date_parse galleryFetch
           galleryParse Demo.origin Demo.now [ListingSettled 2] imageA0 H).
Defined.

(** X8 on the gallery: a second settle event, a date change and a page
    load after the listing has arrived. *)
Lemma listing_settles_once_demo :
  let events := [ListingSettled 2; DatePicked None; SentinelVisible] in
  listingPending loadedA = false /\
  let st' := run Demo.tzOffset Demo.Date_parse galleryFetch galleryParse
               Demo.origin loadedA events in
  objects st' = objects loadedA /\ uniqueDates st' = uniqueDates loadedA /\
  error st' = error loadedA /\ listingPending st' = false.
Proof.
  intros events.
  assert (listingPending loadedA = false) as H by (vm_compute; reflexivity).
  split; [exact H|].
  exact (listing_settles_once Demo.tzOffset Demo.Date_parse galleryFetch
           galleryParse Demo.origin loadedA events H).
Defined.

(** X9 on the endpoint that serves a browser page. *)
Lemma error_is_final_demo :
  let runHtml :=
    run Demo.tzOffset Demo.Date_parse (Demo.fetch Demo.htmlRoutes) galleryParse
      Demo.origin (initialState Demo.now) in
  let after := [DatePicked None; SentinelVisible; ListingSettled 1] in
  error (runHtml [ListingSettled 1]) = Some htmlMessage /\
  let st := runHtml ([ListingSettled 1] ++ after) in
  error st = Some htmlMessage /\ objects st = [] /\ uniqueDates st = [] /\
  images st = [] /\ displayedImages st = [].
Proof.
  intros runHtml after.
  assert (error (runHtml [ListingSettled 1]) = Some htmlMessage) as H
    by (vm_compute; reflexivity).
  split; [exact H|].
  exact (error_is_final Demo.tzOffset Demo.Date_parse (Demo.fetch Demo.htmlRoutes)
           galleryParse Demo.origin Demo.now [ListingSettled 1] after
           htmlMessage H).
Defined.

(** The days of the gallery bucket, newest first. *)
Example gallery_unique_dates :
  map getTime (uniqueDates loadedA)
  = [Num 1748923200000; Num 1748836800000; Num 1748750400000].
Proof. vm_compute. reflexivity. Qed.

(** X11 on the two listing pages of the gallery. *)
Lemma listing_concatenates_pages_demo :
  exists objs1 objs2,
    Requested galleryFetch galleryParse 1 (Some "next/1") ([] ++ objs1) /\
    listingPage galleryFetch galleryParse (Some "next/1") = Normal (objs2, None) /\
    (1 < 2)%nat /\
    listingLoop galleryFetch galleryParse 2 None []
    = Some (Normal (([] ++ objs1) ++ objs2)).
Proof.
  assert (exists objs,
             listingPage galleryFetch galleryParse None
             = Normal (objs, Some "next/1"))
    as (objs1 & Hpage1) by (eexists; vm_compute; reflexivity).
  assert (exists objs,
             listingPage galleryFetch galleryParse (Some "next/1")
             = Normal (objs, None))
    as (objs2 & Hpage2) by (eexists; vm_compute; reflexivity).
  assert (Requested galleryFetch galleryParse 1 (Some "next/1") ([] ++ objs1))
    as Hreq by (eapply Requested_next; [apply Requested_first|exact Hpage1]).
  assert (1 < 2)%nat as Hfuel by lia.
  exists objs1, objs2. split; [exact Hreq|]. split; [exact Hpage2|].
  split; [exact Hfuel|].
  exact (listing_concatenates_pages galleryFetch galleryParse 1 (Some "next/1")
           ([] ++ objs1) objs2 2 Hreq Hpage2 Hfuel).
Defined.

(** X12 on a network that rejects the first listing request. *)
Lemma listing_request_fails_demo :
  let st := initialState Demo.now in
  let message := "Failed to fetch" in
  Requested offlineFetch galleryParse 0 None [] /\
  (offlineFetch GET (listingUrl None) = Rejected message \/
   exists response,
     offlineFetch GET (listingUrl None) = Resolved response /\
     ok response = false /\
     message = "HTTP error: " +:+ string_of_Z (status response) +:+ " "
               +:+ statusText response) /\
  (0 < 1)%nat /\ listingPending st = true /\
  step Demo.tzOffset Demo.Date_parse offlineFetch galleryParse Demo.origin st
    (ListingSettled 1)
  = setListingPending false
      (setLoading false
         (setError (Some (errorMessage Demo.origin message)) (setLoading true st)))
  /\ startsWith (errorMessage Demo.origin message) message = true
  /\ (includes message "fetch" = true ->
      errorMessage Demo.origin message
      = message +:+ ". Ensure the server is configured to allow CORS for "
        +:+ Demo.origin +:+ ".").
Proof.
  intros st message.
  assert (Requested offlineFetch galleryParse 0 None []) as Hreq
    by apply Requested_first.
  assert (offlineFetch GET (listingUrl None) = Rejected message \/
          exists response,
            offlineFetch GET (listingUrl None) = Resolved response /\
            ok response = false /\
            message = "HTTP error: " +:+ string_of_Z (status response) +:+ " "
                      +:+ statusText response) as Hfail by (left; reflexivity).
  assert (0 < 1)%nat as Hfuel by lia.
  split; [exact Hreq|]. split; [exact Hfail|]. split; [exact Hfuel|].
  split; [reflexivity|].
  exact (listing_request_fails Demo.tzOffset Demo.Date_parse offlineFetch
           galleryParse Demo.origin 0 None [] st 1 message
           Hreq Hfail Hfuel eq_refl).
Defined.

(** A bucket address that the server does not know: the error names the
    status, without the CORS hint. *)
Example unknown_bucket :
  let st := step Demo.tzOffset Demo.Date_parse (Demo.fetch []) galleryParse
              Demo.origin (initialState Demo.now) (ListingSettled 1) in
  error st = Some "HTTP error: 404 Not Found" /\ objects st = [] /\
  loading st = false.
Proof. vm_compute. auto. Qed.

(** The viewer on the second image of day A. *)
Local Abbreviation viewerA1 := (galleryRun [ListingSettled 2; ImageClick 1]).

(** The buttons of the viewer on the first, the second and the last of
    the 20 images of day A. *)
Example viewer_buttons :
  let on i := galleryRun [ListingSettled 2; ImageClick i] in
  let buttons st :=
    (hasPreviousImage Demo.tzOffset Demo.Date_parse st,
     hasNextImage Demo.tzOffset Demo.Date_parse st) in
  buttons (on 0%nat) = (false, true) /\ buttons (on 1%nat) = (true, true) /\
  buttons (on 19%nat) = (true, false).
Proof. vm_compute. auto. Qed.

(** X14 on the second image of day A. *)
Lemma viewer_round_trip_demo :
  selectedImage viewerA1 = Some imageA1 /\
  In imageA1 (currentImages Demo.tzOffset Demo.Date_parse viewerA1) /\
  NoDup (map Image.key (currentImages Demo.tzOffset Demo.Date_parse viewerA1)) /\
  (hasPreviousImage Demo.tzOffset Demo.Date_parse viewerA1 = true ->
   handleNextImage Demo.tzOffset Demo.Date_parse
     (handlePreviousImage Demo.tzOffset Demo.Date_parse viewerA1) = viewerA1) /\
  (hasNextImage Demo.tzOffset Demo.Date_parse viewerA1 = true ->
   handlePreviousImage Demo.tzOffset Demo.Date_parse
     (handleNextImage Demo.tzOffset Demo.Date_parse viewerA1) = viewerA1).
Proof.
  assert (selectedImage viewerA1 = Some imageA1) as H1
    by (vm_compute; reflexivity).
  assert (In imageA1 (currentImages Demo.tzOffset Demo.Date_parse viewerA1)) as H2
    by (vm_compute; auto).
  assert (NoDup (map Image.key
                   (currentImages Demo.tzOffset Demo.Date_parse viewerA1))) as H3
    by (apply (bool_decide_unpack _); vm_compute; exact I).
  split; [exact H1|]. split; [exact H2|]. split; [exact H3|].
  exact (viewer_round_trip Demo.tzOffset Demo.Date_parse viewerA1 imageA1
           H1 H2 H3).
Defined.

(** X15 on the first image of day A. *)
Lemma viewer_stops_at_the_ends_demo :
  let st := galleryRun [ListingSettled 2; ImageClick 0] in
  selectedImage st = Some imageA0 /\
  (forall rest,
     currentImages Demo.tzOffset Demo.Date_parse st = imageA0 :: rest ->
     hasPreviousImage Demo.tzOffset Demo.Date_parse st = false /\
     handlePreviousImage Demo.tzOffset Demo.Date_parse st = st) /\
  (forall front,
     currentImages Demo.tzOffset Demo.Date_parse st = front ++ [imageA0] ->
     NoDup (map Image.key (currentImages Demo.tzOffset Demo.Date_parse st)) ->
     hasNextImage Demo.tzOffset Demo.Date_parse st = false /\
     handleNextImage Demo.tzOffset Demo.Date_parse st = st).
Proof.
  intros st.
  assert (selectedImage st = Some imageA0) as H by (vm_compute; reflexivity).
  split; [exact H|].
  exact (viewer_stops_at_the_ends Demo.tzOffset Demo.Date_parse st imageA0 H).
Defined.

(** X16 on the gallery: the first image of day A is in the viewer when
    the date moves to day B. *)
Lemma viewer_selection_off_view_demo :
  let st := galleryRun [ListingSettled 2; ImageClick 0;
                        PreviousDateClick Demo.now] in
  let rest := tl (currentImages Demo.tzOffset Demo.Date_parse st) in
  selectedImage st = Some imageA0 /\
  (forall image, In image (currentImages Demo.tzOffset Demo.Date_parse st) ->
                 Image.key image <> Image.key imageA0) /\
  currentImages Demo.tzOffset Demo.Date_parse st = imageB0 :: rest /\
  hasPreviousImage Demo.tzOffset Demo.Date_parse st = false /\
  handlePreviousImage Demo.tzOffset Demo.Date_parse st = st /\
  hasNextImage Demo.tzOffset Demo.Date_parse st = true /\
  handleNextImage Demo.tzOffset Demo.Date_parse st
  = setSelectedImage (Some imageB0) st.
Proof.
  intros st rest.
  assert (selectedImage st = Some imageA0) as H1 by (vm_compute; reflexivity).
  assert (forall image,
             In image (currentImages Demo.tzOffset Demo.Date_parse st) ->
             Image.key image <> Image.key imageA0) as H2.
  { apply List.Forall_forall. apply (bool_decide_unpack _). vm_compute. exact I. }
  assert (currentImages Demo.tzOffset Demo.Date_parse st = imageB0 :: rest) as H3
    by (vm_compute; reflexivity).
  split; [exact H1|]. split; [exact H2|]. split; [exact H3|].
  exact (viewer_selection_off_view Demo.tzOffset Demo.Date_parse st imageA0
           imageB0 rest H1 H2 H3).
Defined.

(** X17 on the gallery with the current day selected, in the zone of
    the test platform. *)
Lemma date_navigation_moves_one_day_demo :
  let t := 1748985300000 in
  let offset := fun _ : Z => Demo.tzOffset in
  selectedDate loadedA = Some Demo.now /\ getTime Demo.now = Num t /\
  selectedDate
    (step Demo.tzOffset Demo.Date_parse galleryFetch galleryParse Demo.origin
       loadedA (PreviousDateClick Demo.now))
  = Some (mkDate (Num (t - msPerDay))) /\
  (hasNextDate Demo.tzOffset (Some Demo.now) Demo.now = false ->
   step Demo.tzOffset Demo.Date_parse galleryFetch galleryParse Demo.origin
     loadedA (NextDateClick Demo.now) = loadedA) /\
  (hasNextDate Demo.tzOffset (Some Demo.now) Demo.now = true ->
   selectedDate
     (step Demo.tzOffset Demo.Date_parse galleryFetch galleryParse Demo.origin
        loadedA (NextDateClick Demo.now))
   = Some (mkDate (Num (t + msPerDay)))) /\
  (offset (t - msPerDay) = offset t ->
   localDayAt offset (t - msPerDay) = localDayAt offset t - 1) /\
  (offset (t + msPerDay) = offset t ->
   localDayAt offset (t + msPerDay) = localDayAt offset t + 1).
Proof.
  intros t offset.
  assert (selectedDate loadedA = Some Demo.now) as H1 by (vm_compute; reflexivity).
  assert (getTime Demo.now = Num t) as H2 by (vm_compute; reflexivity).
  split; [exact H1|]. split; [exact H2|].
  exact (date_navigation_moves_one_day Demo.tzOffset Demo.Date_parse galleryFetch
           galleryParse Demo.origin loadedA Demo.now Demo.now t offset H1 H2).
Defined.

(** A step of 24 hours over the end of daylight saving (the offset goes
    from UTC-4 to UTC-5 at 06:00 UTC on 2025-11-02): from 00:30 local
    time the time selected by Next is 23:30 of the same local day. *)
Example next_over_a_long_day :
  let offset := fun u : Z =>
    if u <? 1762063200000 then - 4 * 3600000 else - 5 * 3600000 in
  let t := 1762057800000 in
  localDayAt offset (t + msPerDay) = localDayAt offset t.
Proof. vm_compute. reflexivity. Qed.

(** Next is disabled on the current day and enabled on the day
    before. *)
Example next_button_on_the_gallery :
  hasNextDate Demo.tzOffset (selectedDate loadedA) Demo.now = false /\
  hasNextDate Demo.tzOffset
    (selectedDate (galleryRun [ListingSettled 2; PreviousDateClick Demo.now]))
    Demo.now = true.
Proof. vm_compute. auto. Qed.

(** X18 on the gallery: five times Next from day C, two days before the
    current day. *)
Lemma next_date_stops_at_today_demo :
  let dC := mkDate (Demo.Date_parse Demo.dayC) in
  let st := galleryRun [ListingSettled 2; DatePicked (Some dC)] in
  let t := 1748822399000 in
  selectedDate st = Some dC /\ getTime dC = Num t /\
  exists (k : nat) (d' : Date),
    (k <= 5)%nat /\
    selectedDate
      (run Demo.tzOffset Demo.Date_parse galleryFetch galleryParse Demo.origin
         st (repeat (NextDateClick Demo.now) 5)) = Some d' /\
    getTime d' = Num (t + Z.of_nat k * msPerDay) /\
    (forall j : nat,
        (j < k)%nat ->
        hasNextDate Demo.tzOffset
          (Some (mkDate (Num (t + Z.of_nat j * msPerDay)))) Demo.now = true) /\
    ((k < 5)%nat -> hasNextDate Demo.tzOffset (Some d') Demo.now = false).
Proof.
  intros dC st t.
  assert (selectedDate st = Some dC) as H1 by (vm_compute; reflexivity).
  assert (getTime dC = Num t) as H2 by (vm_compute; reflexivity).
  split; [exact H1|]. split; [exact H2|].
  exact (next_date_stops_at_today Demo.tzOffset Demo.Date_parse galleryFetch
           galleryParse Demo.origin 5 st Demo.now dC t H1 H2).
Defined.

(** Five times Next from day C ends on the current day, with its 20
    images on display. *)
Example next_from_day_C :
  let dC := mkDate (Demo.Date_parse Demo.dayC) in
  let st := galleryRun ([ListingSettled 2; DatePicked (Some dC)]
                        ++ repeat (NextDateClick Demo.now) 5) in
  option_map (fun d => match getTime d with
                       | Num t => localDay Demo.tzOffset t
                       | NaN => 0
                       end) (selectedDate st)
  = Some (localDay Demo.tzOffset 1748985300000) /\
  length (displayedImages st) = 20%nat.
Proof. vm_compute. auto. Qed.

(** X19 on the gallery with the current day selected. *)
Lemma previous_then_next_date_demo :
  let t := 1748985300000 in
  selectedDate loadedA = Some Demo.now /\ getTime Demo.now = Num t /\
  hasNextDate Demo.tzOffset (Some (mkDate (Num (t - msPerDay)))) Demo.now = true /\
  selectedDate
    (step Demo.tzOffset Demo.Date_parse galleryFetch galleryParse Demo.origin
       (step Demo.tzOffset Demo.Date_parse galleryFetch galleryParse Demo.origin
          loadedA (PreviousDateClick Demo.now))
       (NextDateClick Demo.now))
  = Some Demo.now.
Proof.
  intros t.
  assert (selectedDate loadedA = Some Demo.now) as H1 by (vm_compute; reflexivity).
  assert (getTime Demo.now = Num t) as H2 by (vm_compute; reflexivity).
  assert (hasNextDate Demo.tzOffset (Some (mkDate (Num (t - msPerDay)))) Demo.now
          = true) as H3 by (vm_compute; reflexivity).
  split; [exact H1|]. split; [exact H2|]. split; [exact H3|].
  exact (previous_then_next_date Demo.tzOffset Demo.Date_parse galleryFetch
           galleryParse Demo.origin loadedA Demo.now Demo.now Demo.now t
           H1 H2 H3).
Defined.

(** X20 on an image of the gallery. *)
Lemma retained_metadata_is_probed_demo :
  Retains loadedA imageA0 /\
  exists response,
    galleryFetch HEAD (bucketUrl +:+ encodeURIComponent (Image.key imageA0))
    = Resolved response /\
    ok response = true /\
    Image.size imageA0
    = parseInt (str_or (headers response "Content-Length") "0") /\
    Image.contentType imageA0
    = str_or (headers response "Content-Type") "unknown" /\
    headers response "Content-Length" <> None.
Proof.
  assert (Retains loadedA imageA0) as H by (left; vm_compute; auto).
  split; [exact H|].
  exact (retained_metadata_is_probed Demo.tzOffset Demo.Date_parse galleryFetch
           galleryParse Demo.origin Demo.now [ListingSettled 2] imageA0 H).
Defined.

(** X21 on the gallery, all dates, after the effect and two page
    loads. *)
Lemma no_image_twice_demo :
  NoDup (map ObjectInfo.key (objects loadedAll)) /\
  let st' := pagesAfter 2%nat loadedAll in
  NoDup (map Image.key (displayedImages st')) /\
  NoDup (map Image.key (currentImages Demo.tzOffset Demo.Date_parse st')).
Proof.
  assert (NoDup (map ObjectInfo.key (objects loadedAll))) as H
    by (apply (bool_decide_unpack _); vm_compute; exact I).
  split; [exact H|].
  exact (no_image_twice Demo.tzOffset Demo.Date_parse galleryFetch loadedAll 2 H).
Defined.

(** X22 on a bucket one image of which carries no date. *)
Lemma invalid_date_fails_the_load_demo :
  let fetch := Demo.fetch [(Demo.firstUrl, "<ListBucketResult>?</ListBucketResult>")] in
  let parse :=
    Demo.parseFromString
      [("<ListBucketResult>?</ListBucketResult>",
        mkDocument false
          [Demo.entry "a.png" Demo.dayA; mkContents (Some "undated.png") None]
          None)] in
  let obj := ObjectInfo.mk "undated.png" "" in
  let objectList := [ObjectInfo.mk "a.png" Demo.dayA; obj] in
  let st := initialState Demo.now in
  listingLoop fetch parse 1 None [] = Some (Normal objectList) /\
  In obj objectList /\ isImageKey (ObjectInfo.key obj) = true /\
  Demo.Date_parse (ObjectInfo.lastModified obj) = NaN /\
  listingPending st = true /\
  step Demo.tzOffset Demo.Date_parse fetch parse Demo.origin st (ListingSettled 1)
  = setListingPending false
      (setLoading false
         (setError (Some "Invalid time value") (setLoading true st))).
Proof.
  intros fetch parse obj objectList st.
  assert (listingLoop fetch parse 1 None [] = Some (Normal objectList)) as H1
    by (vm_compute; reflexivity).
  assert (In obj objectList) as H2 by (right; left; reflexivity).
  assert (isImageKey (ObjectInfo.key obj) = true) as H3
    by (vm_compute; reflexivity).
  assert (Demo.Date_parse (ObjectInfo.lastModified obj) = NaN) as H4
    by (vm_compute; reflexivity).
  split; [exact H1|]. split; [exact H2|]. split; [exact H3|]. split; [exact H4|].
  split; [reflexivity|].
  exact (invalid_date_fails_the_load Demo.tzOffset Demo.Date_parse fetch parse
           Demo.origin 1 objectList obj st H1 H2 H3 H4 eq_refl).
Defined.

(** X24 on the largest size below one megabyte. *)
Lemma just_under_a_megabyte_demo :
  1048525 <= 1048575 < 1048576 /\ formatFileSize (Num 1048575) = "1024.0 KB".
Proof.
  assert (1048525 <= 1048575 < 1048576) as H by lia.
  split; [exact H|].
  exact (just_under_a_megabyte 1048575 H).
Defined.

(** The sizes around the units of the viewer. *)
Example file_sizes :
  map formatFileSize [Num 1023; Num 1024; Num 1280; Num 10240; Num 204800;
                      Num 1048576; Num 5767168; NaN]
  = ["1023 B"; "1.0 KB"; "1.3 KB"; "10.0 KB"; "200.0 KB"; "1.0 MB"; "5.5 MB";
     "NaN MB"].
Proof. vm_compute. reflexivity. Qed.
